(** * grait_trade_bot: trend classifiers, indicator series, file tailer and
    trading engine, embedded from the Python sources.

    Numbers that the Python code holds as floats are rationals here: the
    code only compares them and adds them, and every finite float is a
    rational whose order is the order of [Q].  Timestamps ([datetime] at
    second resolution) are integers. *)

From Stdlib Require Import String Ascii List ZArith QArith Bool Lia.
Import ListNotations.

Local Close Scope Q_scope.
Local Open Scope nat_scope.
Local Open Scope string_scope.
Local Open Scope list_scope.

(** ** Strict comparison on rationals, as a boolean ([a < b] in Python) *)

Definition Qlt_bool (x y : Q) : bool :=
  (Qnum x * QDen y <? Qnum y * QDen x)%Z.

Lemma Qlt_bool_iff (x y : Q) : Qlt_bool x y = true <-> (x < y)%Q.
Proof. unfold Qlt_bool, Qlt. apply Z.ltb_lt. Qed.

Lemma Qlt_bool_false_iff (x y : Q) : Qlt_bool x y = false <-> (y <= x)%Q.
Proof. unfold Qlt_bool, Qle. apply Z.ltb_ge. Qed.

(** * trends.py and stream_trader.py: the two trend heuristics *)

Module Trends.

(** A record [rec] is the dict built from one alert line; the classifier
    reads the three moving averages, the record also carries the price. *)
Record Rec : Type := mkRec {
  price : Q;
  sma20 : Q;
  ema20 : Q;
  ema9  : Q
}.

(** [Literal["UP","DOWN"]]; [Trend = Optional[...]], [None] is the neutral
    answer. *)
Inductive TrendLit : Type := UP | DOWN.
Definition Trend : Type := option TrendLit.

(** [rec["sma20"] > rec["ema20"] > rec["ema9"]]: a chained comparison is the
    conjunction of its two links. *)
Definition is_downtrend (rec : Rec) : bool :=
  Qlt_bool (ema20 rec) (sma20 rec) && Qlt_bool (ema9 rec) (ema20 rec).

Definition is_uptrend (rec : Rec) : bool :=
  Qlt_bool (sma20 rec) (ema20 rec) && Qlt_bool (ema20 rec) (ema9 rec).

Definition trend_of (rec : Rec) : Trend :=
  if is_uptrend rec then Some UP
  else if is_downtrend rec then Some DOWN
  else None.

(** stream_trader.py, [derive_trend(price, ema9, ema20, sma20)]. *)
Definition derive_trend (price ema9 ema20 sma20 : Q) : string :=
  if Qlt_bool ema20 ema9 && Qlt_bool sma20 ema20 && Qle_bool ema9 price
  then "uptrend"
  else if Qlt_bool ema9 ema20 && Qlt_bool ema20 sma20 && Qle_bool price ema9
  then "downtrend"
  else "neutral".

Lemma is_uptrend_iff (rec : Rec) :
  is_uptrend rec = true <-> (sma20 rec < ema20 rec /\ ema20 rec < ema9 rec)%Q.
Proof.
  unfold is_uptrend. rewrite andb_true_iff, !Qlt_bool_iff. reflexivity.
Qed.

Lemma is_downtrend_iff (rec : Rec) :
  is_downtrend rec = true <-> (ema20 rec < sma20 rec /\ ema9 rec < ema20 rec)%Q.
Proof.
  unfold is_downtrend. rewrite andb_true_iff, !Qlt_bool_iff. reflexivity.
Qed.

Lemma up_down_exclusive (rec : Rec) :
  is_uptrend rec = true -> is_downtrend rec = false.
Proof.
  rewrite is_uptrend_iff. intros [H1 _].
  destruct (is_downtrend rec) eqn:E; [|reflexivity].
  apply is_downtrend_iff in E. destruct E as [H2 _].
  exfalso. exact (Qlt_irrefl _ (Qlt_trans _ _ _ H1 H2)).
Qed.

Lemma trend_of_up_iff (rec : Rec) :
  trend_of rec = Some UP <-> (sma20 rec < ema20 rec /\ ema20 rec < ema9 rec)%Q.
Proof.
  rewrite <- is_uptrend_iff. unfold trend_of.
  destruct (is_uptrend rec); [tauto|].
  destruct (is_downtrend rec); split; discriminate.
Qed.

Lemma trend_of_down_iff (rec : Rec) :
  trend_of rec = Some DOWN <-> (ema20 rec < sma20 rec /\ ema9 rec < ema20 rec)%Q.
Proof.
  rewrite <- is_downtrend_iff. unfold trend_of.
  destruct (is_uptrend rec) eqn:U.
  - rewrite (up_down_exclusive rec U). split; discriminate.
  - destruct (is_downtrend rec); split; try discriminate; reflexivity.
Qed.

Lemma trend_of_none_iff (rec : Rec) :
  trend_of rec = None <->
  ~ (sma20 rec < ema20 rec /\ ema20 rec < ema9 rec)%Q /\
  ~ (ema20 rec < sma20 rec /\ ema9 rec < ema20 rec)%Q.
Proof.
  rewrite <- is_uptrend_iff, <- is_downtrend_iff. unfold trend_of.
  destruct (is_uptrend rec), (is_downtrend rec); split; intros H;
    try discriminate H; try reflexivity;
    try (exfalso; destruct H; auto; fail).
  split; discriminate.
Qed.

(** C7.  [trend_of] answers DOWN exactly when sma20 > ema20 > ema9, UP
    exactly when sma20 < ema20 < ema9 and neutral ([None]) in every other
    case, ties included; the answer depends on the three averages only (not
    on the price, and not on how a rational is written); (10, 11, 12) is UP,
    (12, 11, 10) is DOWN and (11, 11, 11) is neutral. *)
Theorem trend_of_classifies :
  (forall rec,
     (trend_of rec = Some DOWN <->
        (sma20 rec > ema20 rec /\ ema20 rec > ema9 rec)%Q) /\
     (trend_of rec = Some UP <->
        (sma20 rec < ema20 rec /\ ema20 rec < ema9 rec)%Q) /\
     (trend_of rec = None <->
        ~ (sma20 rec > ema20 rec /\ ema20 rec > ema9 rec)%Q /\
        ~ (sma20 rec < ema20 rec /\ ema20 rec < ema9 rec)%Q) /\
     ((sma20 rec == ema20 rec \/ ema20 rec == ema9 rec)%Q ->
        trend_of rec = None)) /\
  (forall rec rec',
     (sma20 rec == sma20 rec')%Q -> (ema20 rec == ema20 rec')%Q ->
     (ema9 rec == ema9 rec')%Q ->
     trend_of rec = trend_of rec') /\
  (forall p, trend_of (mkRec p 10 11 12) = Some UP) /\
  (forall p, trend_of (mkRec p 12 11 10) = Some DOWN) /\
  (forall p, trend_of (mkRec p 11 11 11) = None).
Proof.
  split; [|split; [|repeat split; intros; reflexivity]].
  - intros rec. split; [apply trend_of_down_iff|].
    split; [apply trend_of_up_iff|].
    split.
    + rewrite trend_of_none_iff. tauto.
    + intros Htie. apply trend_of_none_iff.
      split; intros [A B]; destruct Htie as [E|E];
        rewrite E in *; eapply Qlt_irrefl; eassumption.
  - intros rec rec' E1 E2 E3.
    destruct (trend_of rec') as [[|]|] eqn:T.
    + apply trend_of_up_iff in T. apply trend_of_up_iff.
      rewrite E1, E2, E3. exact T.
    + apply trend_of_down_iff in T. apply trend_of_down_iff.
      rewrite E1, E2, E3. exact T.
    + apply trend_of_none_iff in T. apply trend_of_none_iff.
      rewrite E1, E2, E3. exact T.
Qed.

(** Whatever [derive_trend] calls an uptrend, [trend_of] calls UP: on that
    side the second heuristic only adds the price condition. *)
Lemma derive_trend_uptrend_is_up (rec : Rec) :
  derive_trend (price rec) (ema9 rec) (ema20 rec) (sma20 rec) = "uptrend" ->
  trend_of rec = Some UP.
Proof.
  unfold derive_trend. intros H. apply trend_of_up_iff.
  destruct (Qlt_bool (ema20 rec) (ema9 rec)) eqn:A;
    destruct (Qlt_bool (sma20 rec) (ema20 rec)) eqn:B; simpl in H;
    try (destruct (Qle_bool (ema9 rec) (price rec)); simpl in H);
    try (destruct (Qlt_bool (ema9 rec) (ema20 rec) && Qlt_bool (ema20 rec) (sma20 rec)
                   && Qle_bool (price rec) (ema9 rec)); discriminate).
  apply Qlt_bool_iff in A, B. split; assumption.
Qed.

(** C8.  The two heuristics are not equivalent: whenever
    sma20 < ema20 < ema9 and price < ema9 the ordering-only classifier says
    UP while [derive_trend] says neutral; (price 1, sma20 10, ema20 11,
    ema9 12) is such an input. *)
Theorem trend_of_derive_trend_disagree :
  (forall rec,
     (sma20 rec < ema20 rec)%Q -> (ema20 rec < ema9 rec)%Q ->
     (price rec < ema9 rec)%Q ->
     trend_of rec = Some UP /\
     derive_trend (price rec) (ema9 rec) (ema20 rec) (sma20 rec) = "neutral") /\
  (exists rec,
     (sma20 rec < ema20 rec /\ ema20 rec < ema9 rec /\ price rec < ema9 rec)%Q /\
     trend_of rec = Some UP /\
     derive_trend (price rec) (ema9 rec) (ema20 rec) (sma20 rec) = "neutral" /\
     derive_trend (price rec) (ema9 rec) (ema20 rec) (sma20 rec) <> "uptrend").
Proof.
  split.
  - intros rec H1 H2 H3. split.
    + apply trend_of_up_iff. split; assumption.
    + unfold derive_trend.
      assert (P : Qle_bool (ema9 rec) (price rec) = false).
      { destruct (Qle_bool (ema9 rec) (price rec)) eqn:E; [|reflexivity].
        apply Qle_bool_iff in E. exfalso.
        exact (Qlt_irrefl _ (Qle_lt_trans _ _ _ E H3)). }
      assert (N : Qlt_bool (ema9 rec) (ema20 rec) = false).
      { apply Qlt_bool_false_iff. apply Qlt_le_weak. exact H2. }
      rewrite P, N, andb_false_r. reflexivity.
  - exists (mkRec 1 10 11 12). vm_compute.
    repeat split; try reflexivity; discriminate.
Qed.

End Trends.

(** * indicators.py: bounded indicator series *)

Module Indicators.

(** ** [collections.deque(maxlen=m)], appended on the right *)

Record Deque (A : Type) : Type := mkDeque {
  dq_maxlen : nat;
  dq_items  : list A
}.
Arguments mkDeque {A} _ _.
Arguments dq_maxlen {A} _.
Arguments dq_items {A} _.

(** [l[-n:]] for a natural [n]: the last [n] items, all of [l] when it is
    shorter. *)
Definition lastn {A : Type} (n : nat) (l : list A) : list A :=
  skipn (length l - n) l.

Definition deque_new {A : Type} (maxlen : nat) : Deque A :=
  mkDeque maxlen [].

(** [d.append(x)]: the item goes to the right end, and items leave from the
    left end while the deque is over its [maxlen]. *)
Definition deque_append {A : Type} (x : A) (d : Deque A) : Deque A :=
  mkDeque (dq_maxlen d) (lastn (dq_maxlen d) (dq_items d ++ [x])).

(** ** [IndicatorSeries] *)

(** The dataclass has three fields.  The default factories of [values] and
    [timestamps] are [deque(maxlen=200)] and do not read [maxlen]. *)
Record IndicatorSeries : Type := mkSeries {
  maxlen     : Z;
  values     : Deque Q;
  timestamps : Deque Z
}.

(** [IndicatorSeries(maxlen=k)]: only [maxlen] is passed, the two deques come
    from their default factories. *)
Definition IndicatorSeries_init (k : Z) : IndicatorSeries :=
  mkSeries k (deque_new 200) (deque_new 200).

Definition update (s : IndicatorSeries) (value : Q) (ts : Z) : IndicatorSeries :=
  mkSeries (maxlen s) (deque_append value (values s))
           (deque_append ts (timestamps s)).

(** [self.values[-1] if self.values else None] *)
Definition current (s : IndicatorSeries) : option Q :=
  match dq_items (values s) with
  | [] => None
  | _ :: _ => nth_error (dq_items (values s)) (length (dq_items (values s)) - 1)
  end.

(** [if n <= 0 or n > len(self.values): return None] and then
    [list(self.values)[-n-0]], the item at index [len - n]. *)
Definition prev (s : IndicatorSeries) (n : Z) : option Q :=
  let l := dq_items (values s) in
  if ((n <=? 0) || (n >? Z.of_nat (length l)))%Z then None
  else nth_error l (length l - Z.to_nat n).

(** [if n <= 0: return []] and then [list(self.values)[-n:]]. *)
Definition last_n (s : IndicatorSeries) (n : Z) : list Q :=
  if (n <=? 0)%Z then [] else lastn (Z.to_nat n) (dq_items (values s)).

(** [Indicator]: four series, each built with [maxlen=2048]. *)
Record Indicator : Type := mkIndicator {
  price : IndicatorSeries;
  sma20 : IndicatorSeries;
  ema20 : IndicatorSeries;
  ema9  : IndicatorSeries
}.

Definition Indicator_init : Indicator :=
  mkIndicator (IndicatorSeries_init 2048) (IndicatorSeries_init 2048)
              (IndicatorSeries_init 2048) (IndicatorSeries_init 2048).

(** A run of [update] calls, oldest point first. *)
Definition updates (s : IndicatorSeries) (pts : list (Q * Z)) : IndicatorSeries :=
  fold_left (fun acc p => update acc (fst p) (snd p)) pts s.

(** The points [(lo, lo), (lo+1, lo+1), ...], [n] of them. *)
Definition ramp (lo n : nat) : list (Q * Z) :=
  map (fun i => (inject_Z (Z.of_nat i), Z.of_nat i)) (seq lo n).

(** ** Facts on [lastn] and the deque *)

Lemma lastn_length {A : Type} (n : nat) (l : list A) :
  length (lastn n l) = Nat.min n (length l).
Proof. unfold lastn. rewrite length_skipn. lia. Qed.

Lemma lastn_all {A : Type} (n : nat) (l : list A) :
  length l <= n -> lastn n l = l.
Proof.
  intros H. unfold lastn. replace (length l - n) with 0 by lia. reflexivity.
Qed.

Lemma lastn_lastn_snoc {A : Type} (m : nat) (l : list A) (x : A) :
  lastn m (lastn m l ++ [x]) = lastn m (l ++ [x]).
Proof.
  unfold lastn at 1 3. rewrite !length_app, lastn_length. simpl.
  unfold lastn.
  assert (E : skipn (length l - m) l ++ [x] = skipn (length l - m) (l ++ [x])).
  { rewrite skipn_app. replace (length l - m - length l) with 0 by lia.
    reflexivity. }
  rewrite E, skipn_skipn. f_equal. lia.
Qed.

Lemma lastn_lastn {A : Type} (n m : nat) (l : list A) :
  lastn n (lastn m l) = lastn (Nat.min n m) l.
Proof.
  unfold lastn at 1. rewrite lastn_length. unfold lastn.
  rewrite skipn_skipn. f_equal. lia.
Qed.

Lemma deque_append_bounded {A : Type} (x : A) (d : Deque A) :
  length (dq_items (deque_append x d)) <= dq_maxlen d.
Proof. simpl. rewrite lastn_length. lia. Qed.

Lemma updates_snoc (s : IndicatorSeries) (pts : list (Q * Z)) (p : Q * Z) :
  updates s (pts ++ [p]) = update (updates s pts) (fst p) (snd p).
Proof. unfold updates. rewrite fold_left_app. reflexivity. Qed.

Lemma updates_values_maxlen (s : IndicatorSeries) (pts : list (Q * Z)) :
  dq_maxlen (values (updates s pts)) = dq_maxlen (values s).
Proof.
  induction pts as [|p pts IH] using rev_ind; [reflexivity|].
  rewrite updates_snoc. simpl. exact IH.
Qed.

(** What a series built by [IndicatorSeries(maxlen=k)] retains after any run
    of updates: the last 200 values, whatever [k] is. *)
Lemma updates_init_values (k : Z) (pts : list (Q * Z)) :
  dq_items (values (updates (IndicatorSeries_init k) pts)) =
  lastn 200 (map fst pts).
Proof.
  induction pts as [|p pts IH] using rev_ind; [reflexivity|].
  rewrite updates_snoc. simpl.
  rewrite updates_values_maxlen. simpl dq_maxlen.
  rewrite IH, map_app. simpl. apply lastn_lastn_snoc.
Qed.

Lemma last_n_updates_init (k : Z) (pts : list (Q * Z)) (n : Z) :
  (0 < n)%Z ->
  last_n (updates (IndicatorSeries_init k) pts) n =
  lastn (Nat.min (Z.to_nat n) 200) (map fst pts).
Proof.
  intros Hn. unfold last_n.
  destruct (n <=? 0)%Z eqn:E; [apply Z.leb_le in E; lia|].
  rewrite updates_init_values. apply lastn_lastn.
Qed.

(** C6.  The capacity of a series is the 200 of the deques' default
    factories, not the [maxlen] it was constructed with: whatever [k], a
    series retains at most 200 values and [last_n n] is the last
    [min n 200] values fed.  For [k = 2048] (as [Indicator] builds it),
    after 2049 updates [last_n 2048] has 200 entries, not 2048; for [k = 3],
    after 4 updates all 4 values are retained and the oldest is still
    returned by [prev 4]. *)
Theorem series_capacity_is_200_not_maxlen :
  (forall k pts,
     length (dq_items (values (updates (IndicatorSeries_init k) pts))) <= 200) /\
  (forall k pts n, (0 < n)%Z ->
     last_n (updates (IndicatorSeries_init k) pts) n =
     lastn (Nat.min (Z.to_nat n) 200) (map fst pts)) /\
  (let s := updates (price Indicator_init) (ramp 0 2049) in
   maxlen s = 2048%Z /\
   length (last_n s 2048) = 200 /\
   last_n s 2048 = map fst (ramp 1849 200)) /\
  (let s := updates (IndicatorSeries_init 3) (ramp 0 4) in
   length (dq_items (values s)) = 4 /\
   prev s 4 = Some (inject_Z 0) /\
   last_n s 3 = map fst (ramp 1 3)).
Proof.
  split; [|split; [|split]].
  - intros k pts. rewrite updates_init_values, lastn_length. lia.
  - intros k pts n Hn. apply last_n_updates_init. exact Hn.
  - vm_compute. repeat split.
  - vm_compute. repeat split.
Qed.

(** C10.  On a non-empty series [prev 1] is [current]; [prev n] is the
    [n]-th most recent value, so [prev 1] right after an update is the value
    just appended; and [prev n] is [None] exactly when [n <= 0] or [n] exceeds
    the number of stored values. *)
Theorem prev_is_nth_most_recent :
  (forall s, dq_items (values s) <> [] -> prev s 1 = current s) /\
  (forall s n,
     (1 <= n <= Z.of_nat (length (dq_items (values s))))%Z ->
     prev s n = nth_error (rev (dq_items (values s))) (Z.to_nat n - 1) /\
     prev s n <> None) /\
  (forall s v ts, 0 < dq_maxlen (values s) -> prev (update s v ts) 1 = Some v) /\
  (forall s n,
     prev s n = None <->
     (n <= 0 \/ n > Z.of_nat (length (dq_items (values s))))%Z).
Proof.
  assert (In_range : forall s n,
     (1 <= n <= Z.of_nat (length (dq_items (values s))))%Z ->
     prev s n = nth_error (dq_items (values s))
                  (length (dq_items (values s)) - Z.to_nat n) /\
     prev s n <> None).
  { intros s n Hn. unfold prev.
    destruct (n <=? 0)%Z eqn:E1; [apply Z.leb_le in E1; lia|].
    destruct (n >? Z.of_nat (length (dq_items (values s))))%Z eqn:E2;
      [apply Z.gtb_lt in E2; lia|].
    simpl. split; [reflexivity|].
    apply nth_error_Some. lia. }
  split; [|split; [|split]].
  - intros s Hne. unfold current.
    destruct (dq_items (values s)) as [|a l] eqn:E; [contradiction|].
    rewrite <- E.
    destruct (In_range s 1%Z) as [-> _]; [rewrite E; simpl; lia|].
    reflexivity.
  - intros s n Hn. destruct (In_range s n Hn) as [E NE].
    split; [|exact NE]. rewrite E, nth_error_rev.
    destruct (Nat.ltb_spec (Z.to_nat n - 1) (length (dq_items (values s))));
      [|lia].
    f_equal. lia.
  - intros s v ts Hcap.
    destruct (In_range (update s v ts) 1%Z) as [-> _].
    + simpl. rewrite lastn_length, length_app. simpl. lia.
    + simpl. unfold lastn.
      rewrite length_skipn, nth_error_skipn, !length_app. simpl.
      rewrite nth_error_app2 by lia.
      replace (_ - length (dq_items (values s))) with 0 by lia.
      reflexivity.
  - intros s n. split.
    + intros H.
      destruct (Z_le_gt_dec n 0) as [L|G]; [left; exact L|].
      destruct (Z_le_gt_dec n (Z.of_nat (length (dq_items (values s)))))
        as [L'|G']; [|right; exact G'].
      destruct (In_range s n) as [_ NE]; [lia|]. contradiction.
    + intros H. unfold prev.
      destruct (n <=? 0)%Z eqn:E1; [reflexivity|].
      destruct (n >? Z.of_nat (length (dq_items (values s))))%Z eqn:E2;
        [reflexivity|].
      apply Z.leb_gt in E1. rewrite Z.gtb_ltb in E2. apply Z.ltb_ge in E2. lia.
Qed.

End Indicators.

(** * file_stream.py: the file tailer *)

Module FileStream.

(** alert_parser.py, [ParsedAlert].  [ts] is a point in time at second
    resolution; only its order is used. *)
Record ParsedAlert : Type := mkAlert {
  symbol   : string;
  price    : Q;
  sma20    : Q;
  ema20    : Q;
  ema9     : Q;
  ts       : Z;
  alert_id : Z
}.

(** What a call of [parse_alert_line] can do: return a record, return
    [None] (the pattern does not match), or raise ([strptime] refuses a
    fourteen-digit stamp that is not a date). *)
Inductive ParseOutcome : Type :=
| Parsed (alert : ParsedAlert)
| NoMatch
| ParseRaised.

(** [FileTailer]: the configured path and symbol, the byte offset read so
    far and the timestamp of the last record yielded. *)
Record FileTailer : Type := mkTailer {
  filepath : string;
  tsymbol  : string;
  _pos     : nat;
  _last_ts : option Z
}.

Definition FileTailer_init (path sym : string) : FileTailer :=
  mkTailer path sym 0 None.

Definition set_pos (self : FileTailer) (p : nat) : FileTailer :=
  mkTailer (filepath self) (tsymbol self) p (_last_ts self).

Definition set_last_ts (self : FileTailer) (t : Z) : FileTailer :=
  mkTailer (filepath self) (tsymbol self) (_pos self) (Some t).

(** One step of the generator's loop either runs to its end or is left by
    an exception; both carry the tailer as the step left it and the records
    yielded so far. *)
Inductive Outcome : Type :=
| Done   (self : FileTailer) (out : list ParsedAlert)
| Raised (self : FileTailer) (out : list ParsedAlert).

(** Sequencing: what was yielded before stays yielded. *)
Definition and_then (r : Outcome) (k : FileTailer -> Outcome) : Outcome :=
  match r with
  | Raised self out => Raised self out
  | Done self out =>
      match k self with
      | Done self' out' => Done self' (out ++ out')
      | Raised self' out' => Raised self' (out ++ out')
      end
  end.

(** ** Reading text lines from a byte offset *)

Definition LF : ascii := "010"%char.
Definition CR : ascii := "013"%char.

(** [f.seek(p)]: the content from byte [p] on. *)
Fixpoint seek (p : nat) (content : string) : string :=
  match p, content with
  | O, _ => content
  | S _, EmptyString => EmptyString
  | S p', String _ rest => seek p' rest
  end.

(** [for line in f] on a file opened in text mode with the default
    [newline=None]: a line ends at "\n", "\r\n" or "\r", each handed over as
    "\n"; what follows the last terminator is a last line, without one.
    [cur] is the line being collected. *)
Fixpoint readlines_from (cur : string) (s : string) : list string :=
  match s with
  | EmptyString =>
      match cur with EmptyString => [] | _ => [cur] end
  | String c rest =>
      if Ascii.eqb c LF then
        (cur ++ String LF EmptyString)%string :: readlines_from EmptyString rest
      else if Ascii.eqb c CR then
        match rest with
        | String c' rest' =>
            if Ascii.eqb c' LF then
              (cur ++ String LF EmptyString)%string
                :: readlines_from EmptyString rest'
            else
              (cur ++ String LF EmptyString)%string
                :: readlines_from EmptyString rest
        | EmptyString => [(cur ++ String LF EmptyString)%string]
        end
      else readlines_from (cur ++ String c EmptyString)%string rest
  end.

Definition readlines (s : string) : list string := readlines_from EmptyString s.

Section Tailer.

(** The line grammar is the collaborator's; the tailer is studied for every
    parser. *)
Variable parse_alert_line : string -> ParseOutcome.

(** The body of the line loop for a line that parsed: the symbol filter,
    then the timestamp dedup; [_last_ts] is set before the record is
    yielded. *)
Definition consume (self : FileTailer) (alert : ParsedAlert)
  : FileTailer * list ParsedAlert :=
  if String.eqb (symbol alert) (tsymbol self) then
    match _last_ts self with
    | None => (set_last_ts self (ts alert), [alert])
    | Some last =>
        if (ts alert >? last)%Z then (set_last_ts self (ts alert), [alert])
        else (self, [])
    end
  else (self, []).

(** [for line in f: ...] *)
Fixpoint scan_lines (self : FileTailer) (lines : list string) : Outcome :=
  match lines with
  | [] => Done self []
  | line :: rest =>
      match parse_alert_line line with
      | ParseRaised => Raised self []
      | NoMatch => scan_lines self rest
      | Parsed alert =>
          and_then (Done (fst (consume self alert)) (snd (consume self alert)))
                   (fun self' => scan_lines self' rest)
      end
  end.

(** [if size < self._pos: self._pos = 0] *)
Definition reset_if_truncated (size : nat) (self : FileTailer) : FileTailer :=
  if (size <? _pos self)%nat then set_pos self 0 else self.

(** One turn of [while True] in [follow], the sleep left out.  [file] is the
    file as this turn finds it: [None] when it is missing
    ([FileNotFoundError], passed over), else its bytes; [f.tell()] after the
    loop is the end of the file.  The bytes read are taken to be UTF-8 text,
    as the writer of the alert files leaves it; [TailerRuns.poll_text] puts
    the decoder and its exception in and is this turn wherever they
    decode. *)
Definition poll (self : FileTailer) (file : option string) : Outcome :=
  match file with
  | None => Done self []
  | Some content =>
      let size := String.length content in
      let self1 := reset_if_truncated size self in
      if (_pos self1 <? size)%nat then
        and_then (scan_lines self1 (readlines (seek (_pos self1) content)))
                 (fun self2 => Done (set_pos self2 (String.length content)) [])
      else Done self1 []
  end.

(** The turns of the loop over the successive states of the file. *)
Fixpoint polls (self : FileTailer) (files : list (option string)) : Outcome :=
  match files with
  | [] => Done self []
  | file :: rest => and_then (poll self file) (fun self' => polls self' rest)
  end.

(** [follow]: the cursor starts at the end of the file as first found
    (tail-only), then the loop runs. *)
Definition follow (self : FileTailer) (found : string)
    (files : list (option string)) : Outcome :=
  polls (set_pos self (String.length found)) files.

End Tailer.

(** ** What a run yields *)

Definition tailer_of (r : Outcome) : FileTailer :=
  match r with Done self _ | Raised self _ => self end.

Definition yielded (r : Outcome) : list ParsedAlert :=
  match r with Done _ out | Raised _ out => out end.

(** [t] passes the watermark [w]. *)
Definition newer (w : option Z) (t : Z) : Prop :=
  match w with None => True | Some last => (last < t)%Z end.

(** Each record of [out] passes the watermark left by the one before it. *)
Fixpoint rising (w : option Z) (out : list ParsedAlert) : Prop :=
  match out with
  | [] => True
  | a :: rest => newer w (ts a) /\ rising (Some (ts a)) rest
  end.

(** The timestamp of the last record of [out], [w] when there is none. *)
Definition watermark_after (w : option Z) (out : list ParsedAlert) : option Z :=
  fold_left (fun _ a => Some (ts a)) out w.

(** The invariant of a stretch of the run that starts at [self]. *)
Definition sound (self : FileTailer) (r : Outcome) : Prop :=
  tsymbol (tailer_of r) = tsymbol self /\
  Forall (fun a => symbol a = tsymbol self) (yielded r) /\
  rising (_last_ts self) (yielded r) /\
  _last_ts (tailer_of r) = watermark_after (_last_ts self) (yielded r).

(** ** Sample lines, in the grammar of alert_parser.py *)

Definition crcl_line_1 : string :=
  "CRCL - MA Alert - 1 - price: 139.00 - SMA_20: 140.80,  EMA_20: 141.12, EMA_9: 138.78 - 20250815040103".
Definition crcl_line_2 : string :=
  "CRCL - MA Alert - 2 - price: 139.50 - SMA_20: 140.75,  EMA_20: 141.00, EMA_9: 138.90 - 20250815040203".
Definition tsla_line_1 : string :=
  "TSLA - MA Alert - 1 - price: 330.00 - SMA_20: 331.00,  EMA_20: 330.50, EMA_9: 330.10 - 20250815040300".
(** Matches the pattern, but month 13 is no date: [strptime] raises. *)
Definition crcl_line_bad_date : string :=
  "CRCL - MA Alert - 3 - price: 139.60 - SMA_20: 140.70,  EMA_20: 140.90, EMA_9: 139.00 - 20251315040303".

Definition crcl_1 : ParsedAlert :=
  mkAlert "CRCL" (13900 # 100) (14080 # 100) (14112 # 100) (13878 # 100)
          20250815040103 1.
Definition crcl_2 : ParsedAlert :=
  mkAlert "CRCL" (13950 # 100) (14075 # 100) (14100 # 100) (13890 # 100)
          20250815040203 2.
Definition tsla_1 : ParsedAlert :=
  mkAlert "TSLA" (33000 # 100) (33100 # 100) (33050 # 100) (33010 # 100)
          20250815040300 1.

(** [line.strip()] for the sample lines: the line terminator goes. *)
Definition chomp (line : string) : string :=
  match String.index 0 (String LF EmptyString) line with
  | Some i => String.substring 0 i line
  | None => line
  end.

(** The parser on the sample lines (timestamps written as the fourteen
    digits of the stamp, which orders them as dates); every other line of the
    examples is free text, which the pattern does not match. *)
Definition sample_parse (line : string) : ParseOutcome :=
  let l := chomp line in
  if String.eqb l crcl_line_1 then Parsed crcl_1
  else if String.eqb l crcl_line_2 then Parsed crcl_2
  else if String.eqb l tsla_line_1 then Parsed tsla_1
  else if String.eqb l crcl_line_bad_date then ParseRaised
  else NoMatch.

Definition nl (line : string) : string := (line ++ String LF EmptyString)%string.

(** A CRCL tailer that has yielded [crcl_1] from a file holding that line. *)
Definition crcl_tailer : FileTailer :=
  mkTailer "CRCL_price_20250815.txt" "CRCL"
           (String.length (nl crcl_line_1)) (Some (ts crcl_1)).

Section TailerFacts.

Variable parse_alert_line : string -> ParseOutcome.

Local Abbreviation scan_lines := (scan_lines parse_alert_line).
Local Abbreviation poll := (poll parse_alert_line).
Local Abbreviation polls := (polls parse_alert_line).
Local Abbreviation follow := (follow parse_alert_line).

Lemma rising_app (w : option Z) (o1 o2 : list ParsedAlert) :
  rising w (o1 ++ o2) <-> rising w o1 /\ rising (watermark_after w o1) o2.
Proof.
  revert w. induction o1 as [|a o1 IH]; intros w; simpl.
  - tauto.
  - rewrite IH. unfold watermark_after. simpl. tauto.
Qed.

Lemma watermark_after_app (w : option Z) (o1 o2 : list ParsedAlert) :
  watermark_after w (o1 ++ o2) = watermark_after (watermark_after w o1) o2.
Proof. unfold watermark_after. apply fold_left_app. Qed.

Lemma sound_and_then (self : FileTailer) (r : Outcome)
    (k : FileTailer -> Outcome) :
  sound self r -> sound (tailer_of r) (k (tailer_of r)) ->
  sound self (and_then r k).
Proof.
  intros (S1 & F1 & R1 & W1) (S2 & F2 & R2 & W2).
  destruct r as [s1 o1|s1 o1]; simpl in *.
  - assert (G : tsymbol (tailer_of (k s1)) = tsymbol self /\
                Forall (fun a => symbol a = tsymbol self) (o1 ++ yielded (k s1)) /\
                rising (_last_ts self) (o1 ++ yielded (k s1)) /\
                _last_ts (tailer_of (k s1)) =
                watermark_after (_last_ts self) (o1 ++ yielded (k s1))).
    { rewrite S2, S1, rising_app, watermark_after_app, <- W1.
      repeat split; try assumption.
      apply Forall_app. split; [assumption|].
      rewrite <- S1. exact F2. }
    unfold sound. destruct (k s1); exact G.
  - repeat split; assumption.
Qed.

Lemma consume_cases (self : FileTailer) (alert : ParsedAlert) :
  (consume self alert = (set_last_ts self (ts alert), [alert]) /\
   symbol alert = tsymbol self /\ newer (_last_ts self) (ts alert)) \/
  (consume self alert = (self, []) /\
   (symbol alert <> tsymbol self \/
    exists last, _last_ts self = Some last /\ (ts alert <= last)%Z)).
Proof.
  unfold consume.
  destruct (String.eqb_spec (symbol alert) (tsymbol self)) as [E|NE].
  - destruct (_last_ts self) as [last|] eqn:W.
    + destruct (ts alert >? last)%Z eqn:C.
      * left. apply Z.gtb_lt in C. simpl. auto.
      * right. rewrite Z.gtb_ltb in C. apply Z.ltb_ge in C.
        split; [reflexivity|]. right. exists last. auto.
    + left. simpl. auto.
  - right. auto.
Qed.

Lemma consume_sound (self : FileTailer) (alert : ParsedAlert) :
  sound self (Done (fst (consume self alert)) (snd (consume self alert))).
Proof.
  destruct (consume_cases self alert) as [(-> & E & N)|(-> & _)];
    unfold sound; simpl.
  - repeat split; auto.
  - repeat split; auto.
Qed.

Lemma scan_lines_sound (lines : list string) :
  forall self, sound self (scan_lines self lines).
Proof.
  induction lines as [|line rest IH]; intros self; cbn [scan_lines].
  - unfold sound. simpl. auto.
  - destruct (parse_alert_line line) as [alert| |].
    + apply sound_and_then; [apply consume_sound|apply IH].
    + apply IH.
    + unfold sound. simpl. auto.
Qed.

Lemma sound_same_watermark (self self' : FileTailer) (r : Outcome) :
  tsymbol self' = tsymbol self -> _last_ts self' = _last_ts self ->
  sound self' r -> sound self r.
Proof. unfold sound. intros -> ->. trivial. Qed.

Lemma poll_sound (self : FileTailer) (file : option string) :
  sound self (poll self file).
Proof.
  assert (Id : forall s, sound s (Done s [])).
  { intros s. unfold sound. simpl. auto. }
  destruct file as [content|]; cbv beta iota zeta delta [poll]; [|apply Id].
  set (self1 := reset_if_truncated (String.length content) self).
  assert (E : tsymbol self1 = tsymbol self /\ _last_ts self1 = _last_ts self).
  { unfold self1, reset_if_truncated.
    destruct (String.length content <? _pos self)%nat; auto. }
  destruct E as [E1 E2].
  apply (sound_same_watermark self self1); try assumption.
  destruct (_pos self1 <? String.length content)%nat; [|apply Id].
  apply sound_and_then; [apply scan_lines_sound|].
  unfold sound. simpl. auto.
Qed.

Lemma polls_sound (files : list (option string)) :
  forall self, sound self (polls self files).
Proof.
  induction files as [|file rest IH]; intros self; cbn [polls].
  - unfold sound. simpl. auto.
  - apply sound_and_then; [apply poll_sound|apply IH].
Qed.

Lemma follow_sound (self : FileTailer) (found : string)
    (files : list (option string)) :
  sound self (follow self found files).
Proof.
  unfold follow.
  apply (sound_same_watermark self (set_pos self (String.length found)));
    try reflexivity.
  apply polls_sound.
Qed.

(** After a turn that ran to its end on a file that is there, the cursor is
    the end of the file. *)
Lemma poll_done_pos (self self' : FileTailer) (content : string)
    (out : list ParsedAlert) :
  poll self (Some content) = Done self' out ->
  _pos self' = String.length content.
Proof.
  simpl. unfold reset_if_truncated.
  destruct (Nat.ltb_spec (String.length content) (_pos self)) as [T|T]; simpl.
  - destruct (Nat.ltb_spec 0 (String.length content)) as [P|P].
    + destruct (scan_lines _ _) as [s o|s o]; simpl; [|discriminate].
      intros H. injection H as <- _. reflexivity.
    + intros H. injection H as <- _. simpl. lia.
  - destruct (Nat.ltb_spec (_pos self) (String.length content)) as [P|P].
    + destruct (scan_lines _ _) as [s o|s o]; simpl; [|discriminate].
      intros H. injection H as <- _. reflexivity.
    + intros H. injection H as <- _. lia.
Qed.

End TailerFacts.

(** C4.  A parsed record of the tailer's symbol is yielded if and only if
    its timestamp is strictly greater than the watermark or there is no
    watermark yet; a record at or below the watermark yields nothing and
    leaves the tailer as it was; a yielded record becomes the watermark.  The
    watermark of a tailer that follows a source is the timestamp of the last
    record it yielded for that source, and none before the first. *)
Theorem dedup_by_watermark
    (parse : string -> ParseOutcome) (self : FileTailer)
    (line : string) (rest : list string) (alert : ParsedAlert) :
  parse line = Parsed alert ->
  symbol alert = tsymbol self ->
  let self' := fst (consume self alert) in
  let out := snd (consume self alert) in
  scan_lines parse self (line :: rest) =
    and_then (Done self' out) (fun s => scan_lines parse s rest) /\
  (out = [alert] \/ out = []) /\
  (out = [alert] <-> newer (_last_ts self) (ts alert)) /\
  (out = [alert] -> _last_ts self' = Some (ts alert)) /\
  (forall last, _last_ts self = Some last -> (ts alert <= last)%Z ->
     out = [] /\ self' = self) /\
  (forall path sym found files,
     let r := follow parse (FileTailer_init path sym) found files in
     rising None (yielded r) /\
     _last_ts (tailer_of r) = watermark_after None (yielded r)).
Proof.
  intros Hparse Hsym self' out.
  split; [cbn [scan_lines]; rewrite Hparse; reflexivity|].
  assert (Hrun : forall path sym found files,
     let r := follow parse (FileTailer_init path sym) found files in
     rising None (yielded r) /\
     _last_ts (tailer_of r) = watermark_after None (yielded r)).
  { intros path sym found files r.
    destruct (follow_sound parse (FileTailer_init path sym) found files)
      as (_ & _ & R & W).
    split; assumption. }
  unfold self', out.
  destruct (consume_cases self alert) as [(-> & _ & N)|(-> & [NE|(last & W & L)])];
    simpl.
  - split; [left; reflexivity|]. split; [tauto|]. split; [reflexivity|].
    split; [|exact Hrun].
    intros w0 W0 L0. rewrite W0 in N. simpl in N. lia.
  - contradiction.
  - split; [right; reflexivity|]. split; [|split; [discriminate|]].
    + split; [discriminate|]. intros N. rewrite W in N. simpl in N. lia.
    + split; [|exact Hrun]. intros w0 W0 L0. split; reflexivity.
Qed.

Lemma dedup_by_watermark_witness :
  snd (consume crcl_tailer crcl_2) = [crcl_2] /\
  _last_ts (fst (consume crcl_tailer crcl_2)) = Some (ts crcl_2).
Proof.
  destruct (dedup_by_watermark sample_parse crcl_tailer
              (nl crcl_line_2) [] crcl_2 eq_refl eq_refl)
    as (_ & _ & Y & W & _).
  assert (E : snd (consume crcl_tailer crcl_2) = [crcl_2]).
  { apply Y. simpl. lia. }
  split; [exact E|exact (W E)].
Defined.

(** C5.  On a turn that finds the file shorter than the cursor, the cursor
    is reset to 0 and the read step of that turn scans every line of the
    file's current content, from offset 0. *)
Theorem truncation_replays_from_zero
    (parse : string -> ParseOutcome) (self : FileTailer) (content : string) :
  String.length content < _pos self ->
  _pos (reset_if_truncated (String.length content) self) = 0 /\
  seek 0 content = content /\
  poll parse self (Some content) = poll parse (set_pos self 0) (Some content) /\
  (content <> EmptyString ->
   poll parse self (Some content) =
     and_then (scan_lines parse (set_pos self 0) (readlines content))
              (fun s => Done (set_pos s (String.length content)) [])).
Proof.
  intros Hlt.
  assert (R : reset_if_truncated (String.length content) self = set_pos self 0).
  { unfold reset_if_truncated.
    destruct (Nat.ltb_spec (String.length content) (_pos self)); [reflexivity|lia]. }
  split; [rewrite R; reflexivity|].
  split; [reflexivity|].
  split.
  - unfold poll. rewrite R. reflexivity.
  - intros Hne. unfold poll. rewrite R. simpl _pos.
    destruct content as [|c rest]; [contradiction|]. reflexivity.
Qed.

Lemma truncation_replays_from_zero_witness :
  String.length (nl crcl_line_2) < _pos (set_pos crcl_tailer 500) /\
  poll sample_parse (set_pos crcl_tailer 500) (Some (nl crcl_line_2)) =
  Done (mkTailer (filepath crcl_tailer) "CRCL"
                 (String.length (nl crcl_line_2)) (Some (ts crcl_2)))
       [crcl_2].
Proof.
  assert (H : String.length (nl crcl_line_2) < _pos (set_pos crcl_tailer 500)).
  { apply Nat.ltb_lt. reflexivity. }
  split; [exact H|].
  destruct (truncation_replays_from_zero sample_parse
              (set_pos crcl_tailer 500) (nl crcl_line_2) H)
    as (_ & _ & E & _).
  rewrite E. reflexivity.
Defined.

(** C9.  Every record a tailer yields carries the tailer's symbol.  A line
    that parses to a record of another symbol yields nothing and leaves the
    tailer, watermark included, as it was; the cursor still ends at the end
    of the file, past such lines, on every turn that reads the file to its
    end. *)
Theorem yields_only_own_symbol
    (parse : string -> ParseOutcome) (self : FileTailer) :
  (forall found files,
     Forall (fun a => symbol a = tsymbol self)
            (yielded (follow parse self found files))) /\
  (forall line rest alert,
     parse line = Parsed alert -> symbol alert <> tsymbol self ->
     consume self alert = (self, []) /\
     scan_lines parse self (line :: rest) = scan_lines parse self rest) /\
  (forall content self' out,
     poll parse self (Some content) = Done self' out ->
     _pos self' = String.length content) /\
  poll sample_parse (set_pos crcl_tailer 0) (Some (nl tsla_line_1)) =
    Done (set_pos crcl_tailer (String.length (nl tsla_line_1))) [].
Proof.
  split; [|split; [|split]].
  - intros found files.
    destruct (follow_sound parse self found files) as (_ & F & _). exact F.
  - intros line rest alert Hparse Hsym.
    assert (C : consume self alert = (self, [])).
    { unfold consume.
      destruct (String.eqb_spec (symbol alert) (tsymbol self));
        [contradiction|reflexivity]. }
    split; [exact C|].
    cbn [scan_lines]. rewrite Hparse, C. simpl.
    destruct (scan_lines parse self rest); reflexivity.
  - intros content self' out. apply poll_done_pos.
  - vm_compute. reflexivity.
Qed.

End FileStream.

(** * src/common/trading_engine.py: the trading engine *)

Module Engine.

(** ** The collaborators of [TradingEngine]

    [SymbolInfoManager], [FilePriceTracker] and the webhook sender are
    imported by trading_engine.py and are not part of the sources at hand. *)

(** Modelled from the spec: the per-symbol state held by [SymbolInfoManager]
    (spec, SymbolState, engine variant): last and expected trade side, the
    blocked flag, realized and unrealized PnL, trade count and last trade
    price; with them the fields [evaluate_trade] reads ([symbol],
    [trade_quantity], the webhook url) and the price that
    [update_current_price] records.  Sides are the strings the engine passes,
    "buy" and "sell"; [None] is no trade yet. *)
Record SymbolInfo : Type := mkInfo {
  symbol              : string;
  webhook_url         : string;
  trade_quantity      : Z;
  current_price       : Q;
  last_trade_price    : option Q;
  last_trade_side     : option string;
  expected_trade_side : string;
  is_blocked          : bool;
  realized_pnl        : Q;
  unrealized_pnl      : Q;
  trade_count         : Z
}.

(** The keyword arguments of [send_trade_alert_by_sentiment]; the exit
    alert passes neither sentiment nor quantity. *)
Record TradeAlert : Type := mkTradeAlert {
  alert_webhook_url : string;
  ticker            : string;
  action            : string;
  sentiment         : option string;
  quantity          : option Z
}.

(** What [FilePriceTracker] answers for a symbol after a [poll()]. *)
Record PriceView : Type := mkView {
  price_changed  : bool;
  view_current   : Q;
  previous_price : option Q
}.

Definition PriceTracker : Type := string -> PriceView.

(** A call of the webhook sender returns (its result is not looked at) or
    raises. *)
Inductive GatewayOutcome : Type := GwReturned | GwRaised.

(** The manager's table, in the order [symbols()] lists it. *)
Definition Manager : Type := list (string * SymbolInfo).

(** The mutable world of the engine: the manager's table and the calls made
    to the webhook sender so far, oldest first. *)
Record World : Type := mkWorld {
  manager : Manager;
  calls   : list TradeAlert
}.

Inductive Exn : Type :=
| UnknownSymbol (sym : string)
| GatewayError (alert : TradeAlert).

(** A Python call returns a value or raises; either way the world is as the
    call left it. *)
Inductive Result (A : Type) : Type :=
| Returned (a : A) (w : World)
| Raise (e : Exn) (w : World).
Arguments Returned {A} _ _.
Arguments Raise {A} _ _.

Definition M (A : Type) : Type := World -> Result A.

Definition ret {A : Type} (a : A) : M A := fun w => Returned a w.

Definition bind {A B : Type} (m : M A) (k : A -> M B) : M B :=
  fun w =>
    match m w with
    | Returned a w' => k a w'
    | Raise e w' => Raise e w'
    end.

Declare Scope engine_scope.
Delimit Scope engine_scope with engine.
Notation "x <- m ;; k" := (bind m (fun x => k))
  (at level 61, m at next level, right associativity) : engine_scope.
Notation "m ;; k" := (bind m (fun _ => k))
  (at level 61, right associativity) : engine_scope.
Local Open Scope engine_scope.

Definition world_of {A : Type} (r : Result A) : World :=
  match r with Returned _ w | Raise _ w => w end.

(** ** Field updates of [SymbolInfo] *)

Definition with_current_price (i : SymbolInfo) (p : Q) : SymbolInfo :=
  mkInfo (symbol i) (webhook_url i) (trade_quantity i) p (last_trade_price i)
         (last_trade_side i) (expected_trade_side i) (is_blocked i)
         (realized_pnl i) (unrealized_pnl i) (trade_count i).

Definition with_last_trade_price (i : SymbolInfo) (p : Q) : SymbolInfo :=
  mkInfo (symbol i) (webhook_url i) (trade_quantity i) (current_price i) (Some p)
         (last_trade_side i) (expected_trade_side i) (is_blocked i)
         (realized_pnl i) (unrealized_pnl i) (trade_count i).

Definition with_last_trade_side (i : SymbolInfo) (s : string) : SymbolInfo :=
  mkInfo (symbol i) (webhook_url i) (trade_quantity i) (current_price i)
         (last_trade_price i) (Some s) (expected_trade_side i) (is_blocked i)
         (realized_pnl i) (unrealized_pnl i) (trade_count i).

Definition with_expected_trade_side (i : SymbolInfo) (s : string) : SymbolInfo :=
  mkInfo (symbol i) (webhook_url i) (trade_quantity i) (current_price i)
         (last_trade_price i) (last_trade_side i) s (is_blocked i)
         (realized_pnl i) (unrealized_pnl i) (trade_count i).

Definition with_is_blocked (i : SymbolInfo) (b : bool) : SymbolInfo :=
  mkInfo (symbol i) (webhook_url i) (trade_quantity i) (current_price i)
         (last_trade_price i) (last_trade_side i) (expected_trade_side i) b
         (realized_pnl i) (unrealized_pnl i) (trade_count i).

Definition with_realized_pnl (i : SymbolInfo) (x : Q) : SymbolInfo :=
  mkInfo (symbol i) (webhook_url i) (trade_quantity i) (current_price i)
         (last_trade_price i) (last_trade_side i) (expected_trade_side i)
         (is_blocked i) x (unrealized_pnl i) (trade_count i).

Definition with_unrealized_pnl (i : SymbolInfo) (x : Q) : SymbolInfo :=
  mkInfo (symbol i) (webhook_url i) (trade_quantity i) (current_price i)
         (last_trade_price i) (last_trade_side i) (expected_trade_side i)
         (is_blocked i) (realized_pnl i) x (trade_count i).

Definition with_trade_count (i : SymbolInfo) (n : Z) : SymbolInfo :=
  mkInfo (symbol i) (webhook_url i) (trade_quantity i) (current_price i)
         (last_trade_price i) (last_trade_side i) (expected_trade_side i)
         (is_blocked i) (realized_pnl i) (unrealized_pnl i) n.

(** ** The manager's table *)

Fixpoint lookup (sym : string) (m : Manager) : option SymbolInfo :=
  match m with
  | [] => None
  | (k, i) :: rest => if String.eqb k sym then Some i else lookup sym rest
  end.

Definition alter (f : SymbolInfo -> SymbolInfo) (sym : string) (m : Manager)
  : Manager :=
  map (fun e => if String.eqb (fst e) sym then (fst e, f (snd e)) else e) m.

(** [manager.symbols()] *)
Definition symbols (m : Manager) : list string := map fst m.

(** [x or 0.0] on a price that may be absent: a zero price is falsy too. *)
Definition or_zero (x : option Q) : Q :=
  match x with
  | Some p => if Qeq_bool p 0 then 0%Q else p
  | None => 0%Q
  end.

(** [side == v] for a side that may be [None]. *)
Definition side_is (side : option string) (v : string) : bool :=
  match side with Some x => String.eqb x v | None => false end.

(** The local flag of [evaluate_trade] ("set is_debug_on to True when
    debugging"). *)
Definition is_debug_on : bool := false.

Section Rules.

(** [update_unrealized_pnl] and [update_is_blocked] take the symbol only:
    each applies a rule of the manager to the symbol's state.  The spec gives
    no formula for the first and leaves the second open (a pluggable risk
    policy); the engine is studied for every such pair of rules, and for
    every behaviour of the webhook sender, which may depend on the calls made
    before. *)
Variable unrealized_rule : SymbolInfo -> Q.
Variable block_rule : SymbolInfo -> bool.
Variable gateway : list TradeAlert -> TradeAlert -> GatewayOutcome.

(** Modelled from the spec: [SymbolInfoManager.get_info], missing from the
    sources.  A symbol with no entry is fatal (spec,
    StateInvariantViolation): the call raises. *)
Definition get_info (sym : string) : M SymbolInfo :=
  fun w =>
    match lookup sym (manager w) with
    | Some i => Returned i w
    | None => Raise (UnknownSymbol sym) w
    end.

(** Modelled from the spec: how every [update_*] and [set_*] method of the
    missing [SymbolInfoManager] reaches a symbol's state: it changes the
    entry of that symbol and no other. *)
Definition modify (sym : string) (f : SymbolInfo -> SymbolInfo) : M unit :=
  fun w =>
    match lookup sym (manager w) with
    | Some _ => Returned tt (mkWorld (alter f sym (manager w)) (calls w))
    | None => Raise (UnknownSymbol sym) w
    end.

(** Modelled from the spec: [SymbolInfoManager.update_current_price],
    missing from the sources; it records the new price. *)
Definition update_current_price (sym : string) (p : Q) : M unit :=
  modify sym (fun i => with_current_price i p).

(** Modelled from the spec: [SymbolInfoManager.update_realized_pnl], missing
    from the sources; "realize the PnL": the unrealized PnL is added to the
    realized PnL. *)
Definition update_realized_pnl (sym : string) : M unit :=
  modify sym (fun i => with_realized_pnl i (realized_pnl i + unrealized_pnl i)%Q).

(** Modelled from the spec: [SymbolInfoManager.set_unrealized_pnl], missing
    from the sources; "reset unrealized_pnl to 0" is its call with 0. *)
Definition set_unrealized_pnl (sym : string) (v : Q) : M unit :=
  modify sym (fun i => with_unrealized_pnl i v).

(** Modelled from the spec: [SymbolInfoManager.update_unrealized_pnl],
    missing from the sources; "update unrealized PnL", by the manager's
    rule. *)
Definition update_unrealized_pnl (sym : string) : M unit :=
  modify sym (fun i => with_unrealized_pnl i (unrealized_rule i)).

(** Modelled from the spec: [SymbolInfoManager.update_trade_count], missing
    from the sources; "increment trade count". *)
Definition update_trade_count (sym : string) : M unit :=
  modify sym (fun i => with_trade_count i (trade_count i + 1)%Z).

(** Modelled from the spec: [SymbolInfoManager.update_last_trade_price],
    missing from the sources; "set last_trade_price = new_price". *)
Definition update_last_trade_price (sym : string) (p : Q) : M unit :=
  modify sym (fun i => with_last_trade_price i p).

(** Modelled from the spec: [SymbolInfoManager.update_last_trade_side],
    missing from the sources. *)
Definition update_last_trade_side (sym : string) (side : string) : M unit :=
  modify sym (fun i => with_last_trade_side i side).

(** Modelled from the spec: [SymbolInfoManager.update_expected_trade_side],
    missing from the sources. *)
Definition update_expected_trade_side (sym : string) (side : string) : M unit :=
  modify sym (fun i => with_expected_trade_side i side).

(** Modelled from the spec: [SymbolInfoManager.update_is_blocked], missing
    from the sources; it re-evaluates the block rule, and [is_blocked] is
    monotonic: once true it is never reset. *)
Definition update_is_blocked (sym : string) : M unit :=
  modify sym (fun i => with_is_blocked i (is_blocked i || block_rule i)).

(** Modelled from the spec: [send_trade_alert_by_sentiment] of the missing
    webhooks module, the order gateway: the call is recorded, then it returns
    or raises. *)
Definition send_trade_alert_by_sentiment (a : TradeAlert) : M unit :=
  fun w =>
    let w' := mkWorld (manager w) (calls w ++ [a]) in
    match gateway (calls w) a with
    | GwReturned => Returned tt w'
    | GwRaised => Raise (GatewayError a) w'
    end.

(** [TradingEngine.evaluate_trade].  [info] is fetched before
    [update_current_price], as in the source, and fetched again after the
    updates of a trade.  Between a fetch and the reads of [info] that follow
    it only [update_current_price] and [update_is_blocked] run, and they
    write fields those reads do not look at ([unrealized_pnl], [is_blocked],
    the sides, the webhook, the quantity and the symbol are read; the block
    flag is read before line 122 rewrites it), so the reads are the same
    whether [get_info] hands out the manager's own object or a copy. *)
Definition evaluate_trade (price_tracker : PriceTracker) (sym : string) : M unit :=
  if negb (price_changed (price_tracker sym)) then ret tt
  else
    let new_price := view_current (price_tracker sym) in
    let old_price := or_zero (previous_price (price_tracker sym)) in
    let take_profit_factor_per_trade := 2%Q in
    info <- get_info sym ;;
    update_current_price sym new_price ;;
    if Qle_bool take_profit_factor_per_trade (unrealized_pnl info) then
      update_realized_pnl sym ;;
      set_unrealized_pnl sym 0 ;;
      update_is_blocked sym
    else if negb (is_blocked info) then
      let webhook := webhook_url info in
      let qty := trade_quantity info in
      let ticker := symbol info in
      if Qlt_bool old_price new_price && negb (Qeq_bool old_price 0) then
        if negb (side_is (last_trade_side info) "buy")
           && String.eqb (expected_trade_side info) "buy" then
          (if negb is_debug_on then
             send_trade_alert_by_sentiment
               (mkTradeAlert webhook ticker "buy" (Some "bullish") (Some qty))
           else ret tt) ;;
          update_realized_pnl sym ;;
          update_trade_count sym ;;
          update_last_trade_price sym new_price ;;
          update_unrealized_pnl sym ;;
          update_last_trade_side sym "buy" ;;
          update_expected_trade_side sym "sell" ;;
          update_is_blocked sym ;;
          info <- get_info sym ;;
          if is_blocked info then
            if negb is_debug_on then
              send_trade_alert_by_sentiment
                (mkTradeAlert webhook ticker "exit" None None)
            else ret tt
          else ret tt
        else
          update_unrealized_pnl sym ;;
          update_last_trade_side sym "buy"
      else if Qlt_bool new_price old_price && negb (Qeq_bool old_price 0) then
        update_is_blocked sym ;;
        if negb (side_is (last_trade_side info) "sell")
           && String.eqb (expected_trade_side info) "sell" then
          (if negb is_debug_on then
             send_trade_alert_by_sentiment
               (mkTradeAlert webhook ticker "sell" (Some "bearish") (Some qty))
           else ret tt) ;;
          update_realized_pnl sym ;;
          update_trade_count sym ;;
          update_last_trade_price sym new_price ;;
          update_unrealized_pnl sym ;;
          update_last_trade_side sym "sell" ;;
          update_expected_trade_side sym "buy" ;;
          update_is_blocked sym ;;
          info <- get_info sym ;;
          if is_blocked info then
            if negb is_debug_on then
              send_trade_alert_by_sentiment
                (mkTradeAlert webhook ticker "exit" None None)
            else ret tt
          else ret tt
        else
          update_unrealized_pnl sym ;;
          update_last_trade_side sym "sell"
      else ret tt
    else ret tt.

(** The [for symbol in self.manager.symbols()] loop of [run]: a blocked
    symbol is skipped. *)
Fixpoint run_symbols (price_tracker : PriceTracker) (syms : list string)
  : M unit :=
  match syms with
  | [] => ret tt
  | sym :: rest =>
      info <- get_info sym ;;
      (if is_blocked info then ret tt else evaluate_trade price_tracker sym) ;;
      run_symbols price_tracker rest
  end.

(** [TradingEngine.run], one turn of [while True] per state of the price
    tracker after its [poll()]; the sleep is left out. *)
Fixpoint run (polls : list PriceTracker) : M unit :=
  match polls with
  | [] => ret tt
  | price_tracker :: rest =>
      (fun w => run_symbols price_tracker (symbols (manager w)) w) ;;
      run rest
  end.

End Rules.

(** ** Instances for the examples *)

(** A rule for [update_unrealized_pnl]: mark the open position to the
    current price. *)
Definition mark_to_market (i : SymbolInfo) : Q :=
  match last_trade_price i, last_trade_side i with
  | Some p, Some side =>
      if String.eqb side "buy"
      then ((current_price i - p) * inject_Z (trade_quantity i))%Q
      else ((p - current_price i) * inject_Z (trade_quantity i))%Q
  | _, _ => 0%Q
  end.

(** A rule for [update_is_blocked]: block once the realized PnL reaches the
    take-profit factor. *)
Definition realized_cap (i : SymbolInfo) : bool := Qle_bool 2 (realized_pnl i).

Definition gateway_up (_ : list TradeAlert) (_ : TradeAlert) : GatewayOutcome :=
  GwReturned.

Definition gateway_down (_ : list TradeAlert) (_ : TradeAlert) : GatewayOutcome :=
  GwRaised.

(** A fresh AAPL entry, expecting a buy, and the world that holds it. *)
Definition aapl : SymbolInfo :=
  mkInfo "AAPL" "https://hook.example/aapl" 1 0 None None "buy" false 0 0 0.

Definition aapl_world : World := mkWorld [("AAPL", aapl)] [].

(** AAPL after a buy at 101 that has run 2.5 into profit. *)
Definition aapl_in_profit : SymbolInfo :=
  mkInfo "AAPL" "https://hook.example/aapl" 1 (1035 # 10) (Some 101%Q)
         (Some "buy") "sell" false 0 (25 # 10) 1.

(** The tracker after a poll that saw the price move from [prev] to [cur]. *)
Definition moved (prev : option Q) (cur : Q) : PriceTracker :=
  fun _ => mkView true cur prev.

(** The poll that saw AAPL move from 100 to 101. *)
Definition aapl_uptick : PriceTracker := moved (Some 100%Q) 101.

Definition buy_alert (i : SymbolInfo) : TradeAlert :=
  mkTradeAlert (webhook_url i) (symbol i) "buy" (Some "bullish")
               (Some (trade_quantity i)).

Definition sell_alert (i : SymbolInfo) : TradeAlert :=
  mkTradeAlert (webhook_url i) (symbol i) "sell" (Some "bearish")
               (Some (trade_quantity i)).

Definition exit_alert (i : SymbolInfo) : TradeAlert :=
  mkTradeAlert (webhook_url i) (symbol i) "exit" None None.

(** ** The two trade transitions, for the statements *)

Inductive Direction : Type := Uptick | Downtick.

Definition side_of (d : Direction) : string :=
  match d with Uptick => "buy" | Downtick => "sell" end.

Definition other_side (d : Direction) : string :=
  match d with Uptick => "sell" | Downtick => "buy" end.

Definition trade_alert (d : Direction) (i : SymbolInfo) : TradeAlert :=
  match d with Uptick => buy_alert i | Downtick => sell_alert i end.

Definition ticked (d : Direction) (old_price new_price : Q) : Prop :=
  match d with
  | Uptick => (old_price < new_price)%Q
  | Downtick => (new_price < old_price)%Q
  end.

(** [update_is_blocked] on a state. *)
Definition reblocked (block_rule : SymbolInfo -> bool) (i : SymbolInfo)
  : SymbolInfo :=
  with_is_blocked i (is_blocked i || block_rule i).

(** The state in which the trade alert is sent: the new price is recorded
    and, on a downtick, the block rule has been re-evaluated once. *)
Definition at_delivery (block_rule : SymbolInfo -> bool) (d : Direction)
    (new_price : Q) (i : SymbolInfo) : SymbolInfo :=
  match d with
  | Uptick => with_current_price i new_price
  | Downtick => reblocked block_rule (with_current_price i new_price)
  end.

(** The six updates that follow the trade alert, in the order of the
    source. *)
Definition committed (unrealized_rule : SymbolInfo -> Q) (d : Direction)
    (new_price : Q) (i : SymbolInfo) : SymbolInfo :=
  let i1 := with_realized_pnl i (realized_pnl i + unrealized_pnl i)%Q in
  let i2 := with_trade_count i1 (trade_count i1 + 1)%Z in
  let i3 := with_last_trade_price i2 new_price in
  let i4 := with_unrealized_pnl i3 (unrealized_rule i3) in
  let i5 := with_last_trade_side i4 (side_of d) in
  with_expected_trade_side i5 (other_side d).

(** ** What an evaluation of one symbol may touch *)

(** Every entry of the table sits under its own symbol. *)
Definition well_keyed (m : Manager) : Prop :=
  forall k j, lookup k m = Some j -> symbol j = k.

(** From [w] to [w'] only the entry of [s] has changed, it has kept its
    [symbol] field, and every call added to the record carries the ticker
    [tk]. *)
Definition keeps (s tk : string) (w w' : World) : Prop :=
  (forall k, k <> s -> lookup k (manager w') = lookup k (manager w)) /\
  (forall j', lookup s (manager w') = Some j' ->
     exists j, lookup s (manager w) = Some j /\ symbol j' = symbol j) /\
  symbols (manager w') = symbols (manager w) /\
  exists new, calls w' = calls w ++ new /\ Forall (fun a => ticker a = tk) new.

(** An action that, run where the entry of [s] has the symbol field [tk],
    stays within [keeps s tk], whether it returns or raises. *)
Definition local {A : Type} (s tk : string) (m : M A) : Prop :=
  forall w,
    (forall j, lookup s (manager w) = Some j -> symbol j = tk) ->
    keeps s tk w (world_of (m w)).

(** ** Facts on the table and on the steps of an evaluation *)

Lemma Qle_bool_false_iff (x y : Q) : Qle_bool x y = false <-> (y < x)%Q.
Proof.
  split.
  - intros H. apply Qnot_le_lt. intros L. apply Qle_bool_iff in L. congruence.
  - intros H. destruct (Qle_bool x y) eqn:E; [|reflexivity].
    apply Qle_bool_iff in E. exfalso. exact (Qlt_not_le _ _ H E).
Qed.

Lemma lookup_alter_same (f : SymbolInfo -> SymbolInfo) (sym : string)
    (m : Manager) (i : SymbolInfo) :
  lookup sym m = Some i -> lookup sym (alter f sym m) = Some (f i).
Proof.
  induction m as [|[k v] m IH]; simpl; [discriminate|].
  destruct (String.eqb k sym) eqn:E; simpl; rewrite E.
  - intros H. injection H as ->. reflexivity.
  - exact IH.
Qed.

Lemma lookup_alter_other (f : SymbolInfo -> SymbolInfo) (sym s : string)
    (m : Manager) :
  s <> sym -> lookup s (alter f sym m) = lookup s m.
Proof.
  intros NE. induction m as [|[k v] m IH]; simpl; [reflexivity|].
  destruct (String.eqb_spec k sym) as [->|Hk]; simpl.
  - destruct (String.eqb_spec sym s) as [->|_]; [contradiction|exact IH].
  - rewrite IH. reflexivity.
Qed.

Lemma symbols_alter (f : SymbolInfo -> SymbolInfo) (sym : string) (m : Manager) :
  symbols (alter f sym m) = symbols m.
Proof.
  unfold symbols, alter. rewrite map_map. apply map_ext.
  intros [k v]. simpl. destruct (String.eqb k sym); reflexivity.
Qed.

Lemma lookup_alter_inv (f : SymbolInfo -> SymbolInfo) (sym : string)
    (m : Manager) (j' : SymbolInfo) :
  lookup sym (alter f sym m) = Some j' ->
  exists j, lookup sym m = Some j /\ j' = f j.
Proof.
  induction m as [|[k v] m IH]; simpl; [discriminate|].
  destruct (String.eqb k sym) eqn:E; simpl; rewrite E.
  - intros H. injection H as <-. exists v. auto.
  - exact IH.
Qed.

Lemma keeps_refl (s tk : string) (w : World) : keeps s tk w w.
Proof.
  unfold keeps. repeat split; auto.
  - intros j' H. exists j'. auto.
  - exists []. rewrite app_nil_r. auto.
Qed.

Lemma keeps_trans (s tk : string) (w1 w2 w3 : World) :
  keeps s tk w1 w2 -> keeps s tk w2 w3 -> keeps s tk w1 w3.
Proof.
  intros (A1 & B1 & C1 & n1 & D1 & E1) (A2 & B2 & C2 & n2 & D2 & E2).
  unfold keeps. repeat split.
  - intros k NE. rewrite A2, A1 by exact NE. reflexivity.
  - intros j3 H3. destruct (B2 j3 H3) as (j2 & H2 & S2).
    destruct (B1 j2 H2) as (j1 & H1 & S1).
    exists j1. split; [exact H1|congruence].
  - congruence.
  - exists (n1 ++ n2). rewrite D2, D1, app_assoc. split; [reflexivity|].
    apply Forall_app. auto.
Qed.

Lemma local_ret {A : Type} (s tk : string) (a : A) : local s tk (ret a).
Proof. intros w _. apply keeps_refl. Qed.

Lemma local_bind {A B : Type} (s tk : string) (m : M A) (k : A -> M B) :
  local s tk m -> (forall a, local s tk (k a)) -> local s tk (bind m k).
Proof.
  intros Hm Hk w Hw. unfold bind.
  pose proof (Hm w Hw) as K1.
  destruct (m w) as [a w1|e w1]; cbn [world_of] in *; [|exact K1].
  apply (keeps_trans s tk w w1); [exact K1|].
  apply Hk. intros j' H'.
  destruct K1 as (_ & B1 & _). destruct (B1 j' H') as (j & H & S).
  rewrite S. apply Hw. exact H.
Qed.

Lemma local_modify (s tk : string) (f : SymbolInfo -> SymbolInfo) :
  (forall i, symbol (f i) = symbol i) -> local s tk (modify s f).
Proof.
  intros Hf w _. unfold modify.
  destruct (lookup s (manager w)) as [i|] eqn:L; cbn [world_of];
    [|apply keeps_refl].
  unfold keeps. cbn [manager calls]. repeat split.
  - intros k NE. apply lookup_alter_other. exact NE.
  - intros j' H'. destruct (lookup_alter_inv f s _ j' H') as (j & H & ->).
    exists j. split; [exact H|apply Hf].
  - apply symbols_alter.
  - exists []. rewrite app_nil_r. auto.
Qed.

Section RulesFacts.

Variable unrealized_rule : SymbolInfo -> Q.
Variable block_rule : SymbolInfo -> bool.
Variable gateway : list TradeAlert -> TradeAlert -> GatewayOutcome.

Local Abbreviation send := (send_trade_alert_by_sentiment gateway).

Lemma bind_get_info {A : Type} (sym : string) (k : SymbolInfo -> M A)
    (w : World) (i : SymbolInfo) :
  lookup sym (manager w) = Some i -> bind (get_info sym) k w = k i w.
Proof. intros H. unfold bind, get_info. rewrite H. reflexivity. Qed.

Lemma modify_ok (sym : string) (f : SymbolInfo -> SymbolInfo) (w : World)
    (i : SymbolInfo) :
  lookup sym (manager w) = Some i ->
  modify sym f w = Returned tt (mkWorld (alter f sym (manager w)) (calls w)).
Proof. intros H. unfold modify. rewrite H. reflexivity. Qed.

Lemma bind_modify {A : Type} (sym : string) (f : SymbolInfo -> SymbolInfo)
    (k : unit -> M A) (w : World) (i : SymbolInfo) :
  lookup sym (manager w) = Some i ->
  bind (modify sym f) k w = k tt (mkWorld (alter f sym (manager w)) (calls w)).
Proof. intros H. unfold bind. rewrite (modify_ok sym f w i H). reflexivity. Qed.

Lemma bind_send_returned {A : Type} (a : TradeAlert) (k : unit -> M A)
    (w : World) :
  gateway (calls w) a = GwReturned ->
  bind (send a) k w = k tt (mkWorld (manager w) (calls w ++ [a])).
Proof.
  intros H. unfold bind, send_trade_alert_by_sentiment. rewrite H. reflexivity.
Qed.

Lemma bind_send_raised {A : Type} (a : TradeAlert) (k : unit -> M A)
    (w : World) :
  gateway (calls w) a = GwRaised ->
  bind (send a) k w =
  Raise (GatewayError a) (mkWorld (manager w) (calls w ++ [a])).
Proof.
  intros H. unfold bind, send_trade_alert_by_sentiment. rewrite H. reflexivity.
Qed.

(** A call of the sender leaves the table alone, whatever its outcome. *)
Lemma send_manager (a : TradeAlert) (w : World) :
  manager (world_of (send a w)) = manager w /\
  calls (world_of (send a w)) = calls w ++ [a].
Proof.
  unfold send_trade_alert_by_sentiment.
  destruct (gateway (calls w) a); simpl; auto.
Qed.

Local Ltac solve_lookup :=
  cbn [manager];
  first [ eassumption
        | erewrite lookup_alter_same; [|solve_lookup]; reflexivity ].

Local Ltac run_modify := erewrite bind_modify by solve_lookup.

(** A trade transition up to the moment the sender has been called for the
    trade alert: nothing but the price (and, on a downtick, the block flag)
    has been written. *)
Lemma trade_branch_delivery (price_tracker : PriceTracker) (sym : string)
    (w : World) (info : SymbolInfo) (d : Direction) :
  lookup sym (manager w) = Some info ->
  price_changed (price_tracker sym) = true ->
  (unrealized_pnl info < 2)%Q ->
  is_blocked info = false ->
  ticked d (or_zero (previous_price (price_tracker sym)))
           (view_current (price_tracker sym)) ->
  Qeq_bool (or_zero (previous_price (price_tracker sym))) 0 = false ->
  side_is (last_trade_side info) (side_of d) = false ->
  expected_trade_side info = side_of d ->
  let new_price := view_current (price_tracker sym) in
  let w0 :=
    mkWorld
      (match d with
       | Uptick =>
           alter (fun i => with_current_price i new_price) sym (manager w)
       | Downtick =>
           alter (fun i => with_is_blocked i (is_blocked i || block_rule i)) sym
             (alter (fun i => with_current_price i new_price) sym (manager w))
       end)
      (calls w) in
  lookup sym (manager w0) = Some (at_delivery block_rule d new_price info) /\
  evaluate_trade unrealized_rule block_rule gateway price_tracker sym w =
  bind (send (trade_alert d info))
    (fun _ =>
       update_realized_pnl sym ;;
       update_trade_count sym ;;
       update_last_trade_price sym new_price ;;
       update_unrealized_pnl unrealized_rule sym ;;
       update_last_trade_side sym (side_of d) ;;
       update_expected_trade_side sym (other_side d) ;;
       update_is_blocked block_rule sym ;;
       info' <- get_info sym ;;
       if is_blocked info' then send (exit_alert info) else ret tt) w0.
Proof.
  intros Hlk Hchg Hpnl Hnb Htick Hnz Hside Hexp new_price w0.
  apply Qle_bool_false_iff in Hpnl.
  split.
  { unfold w0. destruct d; cbn [at_delivery reblocked]; solve_lookup. }
  unfold evaluate_trade. rewrite Hchg. cbn [negb]. cbv zeta.
  erewrite bind_get_info by eassumption.
  unfold update_current_price at 1. run_modify.
  rewrite Hpnl, Hnb, Hnz, Hexp. cbn [negb andb].
  unfold is_debug_on. cbn [negb].
  destruct d; cbn [ticked side_of other_side] in *.
  - apply Qlt_bool_iff in Htick. rewrite Htick, Hside. cbn [negb andb].
    reflexivity.
  - assert (Hup : Qlt_bool (or_zero (previous_price (price_tracker sym)))
                           (view_current (price_tracker sym)) = false).
    { apply Qlt_bool_false_iff. apply Qlt_le_weak. exact Htick. }
    apply Qlt_bool_iff in Htick. rewrite Hup, Htick, Hside. cbn [negb andb].
    unfold update_is_blocked at 1. run_modify.
    reflexivity.
Qed.

(** The rest of a trade transition, once the sender has returned: the six
    updates, the block rule, and the exit alert if the symbol is blocked;
    whatever the exit call does, the table holds the committed state. *)
Lemma trade_branch_commit (sym : string) (w0 : World) (i0 info : SymbolInfo)
    (d : Direction) (new_price : Q) :
  lookup sym (manager w0) = Some i0 ->
  let r :=
    (update_realized_pnl sym ;;
     update_trade_count sym ;;
     update_last_trade_price sym new_price ;;
     update_unrealized_pnl unrealized_rule sym ;;
     update_last_trade_side sym (side_of d) ;;
     update_expected_trade_side sym (other_side d) ;;
     update_is_blocked block_rule sym ;;
     info' <- get_info sym ;;
     if is_blocked info' then send (exit_alert info) else ret tt) w0 in
  lookup sym (manager (world_of r)) =
    Some (reblocked block_rule (committed unrealized_rule d new_price i0)) /\
  firstn (length (calls w0)) (calls (world_of r)) = calls w0.
Proof.
  intros Hlk r. unfold r.
  unfold update_realized_pnl, update_trade_count, update_last_trade_price,
    update_unrealized_pnl, update_last_trade_side, update_expected_trade_side,
    update_is_blocked.
  do 7 run_modify.
  assert (L : exists x,
     lookup sym
       (manager
          (mkWorld
             (alter (fun i => with_is_blocked i (is_blocked i || block_rule i)) sym
             (alter (fun i => with_expected_trade_side i (other_side d)) sym
             (alter (fun i => with_last_trade_side i (side_of d)) sym
             (alter (fun i => with_unrealized_pnl i (unrealized_rule i)) sym
             (alter (fun i => with_last_trade_price i new_price) sym
             (alter (fun i => with_trade_count i (trade_count i + 1)%Z) sym
             (alter (fun i => with_realized_pnl i
                                (realized_pnl i + unrealized_pnl i)%Q) sym
                (manager w0))))))))
             (calls w0))) = Some x /\
     x = reblocked block_rule (committed unrealized_rule d new_price i0)).
  { eexists. split; [solve_lookup|]. reflexivity. }
  destruct L as (x & L & ->).
  erewrite bind_get_info by exact L.
  destruct (is_blocked (reblocked block_rule
                          (committed unrealized_rule d new_price i0))).
  - match goal with
    | |- context [send_trade_alert_by_sentiment _ ?a ?W] =>
        destruct (send_manager a W) as [Em Ec]
    end.
    rewrite Em, Ec. split; [exact L|].
    cbn [calls]. rewrite firstn_app, Nat.sub_diag, firstn_all. simpl.
    apply app_nil_r.
  - cbn [ret world_of]. split; [exact L|].
    cbn [calls]. apply firstn_all.
Qed.

(** The take-profit branch, call by call: the price is recorded, the PnL
    realized, the unrealized PnL reset, the block rule re-evaluated; the
    sender is not called. *)
Lemma take_profit_branch (price_tracker : PriceTracker) (sym : string)
    (w : World) (info : SymbolInfo) :
  lookup sym (manager w) = Some info ->
  price_changed (price_tracker sym) = true ->
  (2 <= unrealized_pnl info)%Q ->
  evaluate_trade unrealized_rule block_rule gateway price_tracker sym w =
  Returned tt
    (mkWorld
       (alter (fun i => with_is_blocked i (is_blocked i || block_rule i)) sym
          (alter (fun i => with_unrealized_pnl i 0) sym
             (alter (fun i => with_realized_pnl i
                                (realized_pnl i + unrealized_pnl i)%Q) sym
                (alter (fun i => with_current_price i
                                   (view_current (price_tracker sym))) sym
                   (manager w)))))
       (calls w)).
Proof.
  intros Hlk Hchg Hpnl.
  apply Qle_bool_iff in Hpnl.
  unfold evaluate_trade. rewrite Hchg. cbn [negb]. cbv zeta.
  erewrite bind_get_info by eassumption.
  unfold update_current_price. erewrite bind_modify by eassumption.
  rewrite Hpnl.
  unfold update_realized_pnl, set_unrealized_pnl, update_is_blocked.
  erewrite bind_modify by (cbn [manager]; eauto using lookup_alter_same).
  erewrite bind_modify by (cbn [manager]; eauto using lookup_alter_same).
  erewrite modify_ok by (cbn [manager]; eauto using lookup_alter_same).
  reflexivity.
Qed.

Lemma local_get_bind {A : Type} (s tk : string) (k : SymbolInfo -> M A) :
  (forall info, symbol info = tk -> local s tk (k info)) ->
  local s tk (bind (get_info s) k).
Proof.
  intros Hk w Hw. unfold bind, get_info.
  destruct (lookup s (manager w)) as [i|] eqn:L; [|apply keeps_refl].
  apply Hk.
  - apply Hw. reflexivity.
  - intros j H. rewrite L in H. apply Hw. exact H.
Qed.

Lemma local_send (s tk : string) (a : TradeAlert) :
  ticker a = tk -> local s tk (send a).
Proof.
  intros Ha w _. destruct (send_manager a w) as [Em Ec].
  unfold keeps. rewrite Em, Ec. repeat split; auto.
  - intros j' H. exists j'. auto.
  - exists [a]. auto.
Qed.

Local Ltac local_step :=
  first
    [ apply local_ret
    | apply local_get_bind; intros ? ?
    | apply local_modify; intros ?; reflexivity
    | apply local_send; assumption
    | apply local_bind; [|intros ?]
    | match goal with
      | |- local _ _ (if ?c then _ else _) => destruct c
      end ].

(** An evaluation of [sym] touches the entry of [sym] only, and every alert
    it sends carries that entry's symbol. *)
Lemma evaluate_trade_local (price_tracker : PriceTracker) (sym tk : string) :
  local sym tk
    (evaluate_trade unrealized_rule block_rule gateway price_tracker sym).
Proof.
  unfold evaluate_trade, update_current_price, update_realized_pnl,
    set_unrealized_pnl, update_unrealized_pnl, update_trade_count,
    update_last_trade_price, update_last_trade_side,
    update_expected_trade_side, update_is_blocked.
  cbv zeta. repeat local_step.
Qed.

Lemma run_symbols_cons (price_tracker : PriceTracker) (s : string)
    (rest : list string) (w : World) :
  run_symbols unrealized_rule block_rule gateway price_tracker (s :: rest) w =
  match lookup s (manager w) with
  | None => Raise (UnknownSymbol s) w
  | Some j =>
      if is_blocked j then
        run_symbols unrealized_rule block_rule gateway price_tracker rest w
      else
        match evaluate_trade unrealized_rule block_rule gateway
                price_tracker s w with
        | Returned _ w1 =>
            run_symbols unrealized_rule block_rule gateway price_tracker rest w1
        | Raise e w1 => Raise e w1
        end
  end.
Proof.
  cbn [run_symbols]. unfold bind, get_info.
  destruct (lookup s (manager w)) as [j|]; [|reflexivity].
  destruct (is_blocked j); reflexivity.
Qed.

Lemma run_cons (price_tracker : PriceTracker) (rest : list PriceTracker)
    (w : World) :
  run unrealized_rule block_rule gateway (price_tracker :: rest) w =
  match run_symbols unrealized_rule block_rule gateway price_tracker
          (symbols (manager w)) w with
  | Returned _ w1 => run unrealized_rule block_rule gateway rest w1
  | Raise e w1 => Raise e w1
  end.
Proof. reflexivity. Qed.

(** The loop over the symbols leaves a blocked entry as it is and sends no
    alert under its ticker. *)
Lemma run_symbols_blocked (price_tracker : PriceTracker) (sym : string)
    (i : SymbolInfo) (syms : list string) :
  forall w,
    well_keyed (manager w) ->
    lookup sym (manager w) = Some i -> is_blocked i = true ->
    let w' :=
      world_of (run_symbols unrealized_rule block_rule gateway price_tracker
                  syms w) in
    well_keyed (manager w') /\
    lookup sym (manager w') = Some i /\
    symbols (manager w') = symbols (manager w) /\
    exists new,
      calls w' = calls w ++ new /\ Forall (fun a => ticker a <> sym) new.
Proof.
  induction syms as [|s rest IH]; intros w Hwk Hlk Hb; cbv zeta.
  - cbn. repeat split; auto. exists []. rewrite app_nil_r. auto.
  - rewrite run_symbols_cons.
    assert (Stay : well_keyed (manager w) /\
                   lookup sym (manager w) = Some i /\
                   symbols (manager w) = symbols (manager w) /\
                   exists new, calls w = calls w ++ new /\
                               Forall (fun a => ticker a <> sym) new).
    { repeat split; auto. exists []. rewrite app_nil_r. auto. }
    destruct (lookup s (manager w)) as [j|] eqn:L; [|exact Stay].
    destruct (is_blocked j) eqn:Bj.
    + apply IH; assumption.
    + assert (NE : sym <> s).
      { intros ->. rewrite Hlk in L. injection L as <-. congruence. }
      pose proof (evaluate_trade_local price_tracker s s w) as K.
      assert (Pre : forall j0, lookup s (manager w) = Some j0 -> symbol j0 = s).
      { intros j0 H0. apply Hwk. exact H0. }
      specialize (K Pre). destruct K as (A1 & B1 & C1 & n1 & D1 & E1).
      destruct (evaluate_trade unrealized_rule block_rule gateway
                  price_tracker s w) as [[] w1|e w1]; cbn [world_of] in *.
      * assert (Hwk1 : well_keyed (manager w1)).
        { intros k j1 H1. destruct (String.eqb_spec k s) as [->|Hk].
          - destruct (B1 j1 H1) as (j0 & H0 & S0). rewrite S0. apply Pre.
            exact H0.
          - rewrite A1 in H1 by exact Hk. apply Hwk. exact H1. }
        assert (Hlk1 : lookup sym (manager w1) = Some i).
        { rewrite A1 by exact NE. exact Hlk. }
        destruct (IH w1 Hwk1 Hlk1 Hb) as (W2 & L2 & S2 & n2 & D2 & E2).
        split; [exact W2|]. split; [exact L2|]. split; [congruence|].
        exists (n1 ++ n2). rewrite D2, D1, app_assoc. split; [reflexivity|].
        apply Forall_app. split; [|exact E2].
        eapply Forall_impl; [|exact E1]. intros a ->. auto.
      * split.
        { intros k j1 H1. destruct (String.eqb_spec k s) as [->|Hk].
          - destruct (B1 j1 H1) as (j0 & H0 & S0). rewrite S0. apply Pre.
            exact H0.
          - rewrite A1 in H1 by exact Hk. apply Hwk. exact H1. }
        split; [rewrite A1 by exact NE; exact Hlk|].
        split; [exact C1|].
        exists n1. split; [exact D1|].
        eapply Forall_impl; [|exact E1]. intros a ->. auto.
Qed.

(** Once blocked, blocked for the rest of the run: the entry of a blocked
    symbol never changes again and no alert is sent under its ticker. *)
Lemma run_blocked (sym : string) (i : SymbolInfo) (polls : list PriceTracker) :
  forall w,
    well_keyed (manager w) ->
    lookup sym (manager w) = Some i -> is_blocked i = true ->
    let w' := world_of (run unrealized_rule block_rule gateway polls w) in
    well_keyed (manager w') /\
    lookup sym (manager w') = Some i /\
    exists new,
      calls w' = calls w ++ new /\ Forall (fun a => ticker a <> sym) new.
Proof.
  induction polls as [|price_tracker rest IH]; intros w Hwk Hlk Hb; cbv zeta.
  - cbn. repeat split; auto. exists []. rewrite app_nil_r. auto.
  - rewrite run_cons.
    destruct (run_symbols_blocked price_tracker sym i
                (symbols (manager w)) w Hwk Hlk Hb)
      as (W1 & L1 & _ & n1 & D1 & E1).
    destruct (run_symbols unrealized_rule block_rule gateway price_tracker
                (symbols (manager w)) w) as [[] w1|e w1]; cbn [world_of] in *.
    + destruct (IH w1 W1 L1 Hb) as (W2 & L2 & n2 & D2 & E2).
      split; [exact W2|]. split; [exact L2|].
      exists (n1 ++ n2). rewrite D2, D1, app_assoc. split; [reflexivity|].
      apply Forall_app. auto.
    + split; [exact W1|]. split; [exact L1|]. exists n1. auto.
Qed.

End RulesFacts.






(** The control loop passes over a blocked symbol: its entry is not
    evaluated. *)
Lemma run_symbols_skips_blocked
    (unrealized_rule : SymbolInfo -> Q) (block_rule : SymbolInfo -> bool)
    (gateway : list TradeAlert -> TradeAlert -> GatewayOutcome)
    (price_tracker : PriceTracker) (sym : string) (rest : list string)
    (w : World) (info : SymbolInfo) :
  lookup sym (manager w) = Some info -> is_blocked info = true ->
  run_symbols unrealized_rule block_rule gateway price_tracker (sym :: rest) w =
  run_symbols unrealized_rule block_rule gateway price_tracker rest w.
Proof.
  intros Hlk Hb. cbn [run_symbols].
  erewrite bind_get_info by eassumption. rewrite Hb. reflexivity.
Qed.

(** C2.  The take-profit branch calls the webhook sender for nothing,
    whatever the manager's rules and the sender are: a symbol that it blocks
    gets no EXIT alert then, and none later, since the loop skips it: in a
    table keyed by symbol, the entry of a blocked symbol stays as it is for
    the rest of the run and no alert is sent under its ticker.  In
    the run of AAPL over the prices 100, 101, 104, 105, 99 the BUY at 101 is
    the only alert of the run: the unrealized PnL reaches 3 at 104, the
    evaluation at 105 realizes it and blocks the symbol, the poll at 99 is
    skipped, and no EXIT is ever sent. *)
Theorem take_profit_blocks_without_exit :
  (forall unrealized_rule block_rule gateway price_tracker sym w info,
     lookup sym (manager w) = Some info ->
     price_changed (price_tracker sym) = true ->
     (2 <= unrealized_pnl info)%Q ->
     calls (world_of (evaluate_trade unrealized_rule block_rule gateway
                        price_tracker sym w)) = calls w) /\
  (forall unrealized_rule block_rule gateway price_tracker sym rest w info,
     lookup sym (manager w) = Some info -> is_blocked info = true ->
     run_symbols unrealized_rule block_rule gateway price_tracker
       (sym :: rest) w =
     run_symbols unrealized_rule block_rule gateway price_tracker rest w) /\
  (forall unrealized_rule block_rule gateway polls w sym info,
     well_keyed (manager w) ->
     lookup sym (manager w) = Some info -> is_blocked info = true ->
     lookup sym (manager (world_of (run unrealized_rule block_rule gateway
                                      polls w))) = Some info /\
     exists new,
       calls (world_of (run unrealized_rule block_rule gateway polls w)) =
         calls w ++ new /\
       Forall (fun a => ticker a <> sym) new) /\
  (exists w1 i1,
     evaluate_trade mark_to_market realized_cap gateway_up
       (moved (Some (1035 # 10)%Q) 104) "AAPL"
       (mkWorld [("AAPL", aapl_in_profit)] []) = Returned tt w1 /\
     lookup "AAPL" (manager w1) = Some i1 /\
     is_blocked aapl_in_profit = false /\ is_blocked i1 = true /\
     calls w1 = []) /\
  (exists i,
     run mark_to_market realized_cap gateway_up
       [moved None 100; aapl_uptick; moved (Some 101%Q) 104;
        moved (Some 104%Q) 105; moved (Some 105%Q) 99]
       aapl_world = Returned tt (mkWorld [("AAPL", i)] [buy_alert aapl]) /\
     is_blocked i = true /\
     (realized_pnl i == 3)%Q /\
     unrealized_pnl i = 0%Q /\
     (current_price i == 105)%Q).
Proof.
  split; [|split; [|split; [|split]]].
  - intros ur br gw price_tracker sym w info Hlk Hchg Hpnl.
    rewrite (take_profit_branch ur br gw price_tracker sym w info Hlk Hchg Hpnl).
    reflexivity.
  - intros ur br gw price_tracker sym rest w info.
    apply run_symbols_skips_blocked.
  - intros ur br gw polls w sym info Hwk Hlk Hb.
    destruct (run_blocked ur br gw sym info polls w Hwk Hlk Hb)
      as (_ & L & N).
    split; [exact L|exact N].
  - do 2 eexists. split; [vm_compute; reflexivity|].
    split; [vm_compute; reflexivity|]. repeat split.
  - eexists. split; [vm_compute; reflexivity|]. repeat split.
Qed.

(** C3, as the code has it.  In a trade transition the webhook sender is
    called for the BUY or SELL alert first, on a state that has none of the
    trade's updates; the updates (realized PnL, trade count, last trade
    price, unrealized PnL, last and expected trade side) are applied after
    that call returns.  A call that returns, whatever it reports, neither
    rolls back nor prevents them, and neither does the later exit call; a call
    that raises leaves [evaluate_trade] with none of them applied. *)
Theorem delivery_precedes_commit
    (unrealized_rule : SymbolInfo -> Q) (block_rule : SymbolInfo -> bool)
    (gateway : list TradeAlert -> TradeAlert -> GatewayOutcome)
    (price_tracker : PriceTracker) (sym : string) (w : World)
    (info : SymbolInfo) (d : Direction) :
  lookup sym (manager w) = Some info ->
  price_changed (price_tracker sym) = true ->
  (unrealized_pnl info < 2)%Q ->
  is_blocked info = false ->
  ticked d (or_zero (previous_price (price_tracker sym)))
           (view_current (price_tracker sym)) ->
  Qeq_bool (or_zero (previous_price (price_tracker sym))) 0 = false ->
  side_is (last_trade_side info) (side_of d) = false ->
  expected_trade_side info = side_of d ->
  let new_price := view_current (price_tracker sym) in
  let alert := trade_alert d info in
  let i0 := at_delivery block_rule d new_price info in
  let i1 := reblocked block_rule (committed unrealized_rule d new_price i0) in
  let r := evaluate_trade unrealized_rule block_rule gateway price_tracker sym w in
  (gateway (calls w) alert = GwRaised ->
   exists w',
     r = Raise (GatewayError alert) w' /\
     calls w' = calls w ++ [alert] /\
     lookup sym (manager w') = Some i0) /\
  (gateway (calls w) alert = GwReturned ->
   lookup sym (manager (world_of r)) = Some i1 /\
   firstn (S (length (calls w))) (calls (world_of r)) = calls w ++ [alert]) /\
  (trade_count i0 = trade_count info /\
   last_trade_price i0 = last_trade_price info /\
   last_trade_side i0 = last_trade_side info /\
   expected_trade_side i0 = expected_trade_side info /\
   realized_pnl i0 = realized_pnl info /\
   unrealized_pnl i0 = unrealized_pnl info) /\
  (trade_count i1 = (trade_count info + 1)%Z /\
   last_trade_price i1 = Some new_price /\
   last_trade_side i1 = Some (side_of d) /\
   expected_trade_side i1 = other_side d /\
   realized_pnl i1 = (realized_pnl info + unrealized_pnl info)%Q).
Proof.
  intros Hlk Hchg Hpnl Hnb Htick Hnz Hside Hexp new_price alert i0 i1 r.
  destruct (trade_branch_delivery unrealized_rule block_rule gateway
              price_tracker sym w info d Hlk Hchg Hpnl Hnb Htick Hnz Hside Hexp)
    as [L0 E].
  fold new_price in L0, E. fold i0 in L0.
  split; [|split; [|split]].
  - intros G. unfold r. rewrite E.
    rewrite bind_send_raised by exact G.
    eexists. split; [reflexivity|]. split; [reflexivity|]. exact L0.
  - intros G. unfold r. rewrite E.
    rewrite bind_send_returned by exact G.
    match goal with
    | |- context [bind ?m ?k ?W] =>
        destruct (trade_branch_commit unrealized_rule block_rule gateway
                    sym W i0 info d new_price L0) as [L1 F1]
    end.
    split; [exact L1|].
    cbn [calls] in F1. rewrite length_app, Nat.add_1_r in F1. exact F1.
  - unfold i0. destruct d; cbn; repeat split.
  - unfold i1, i0. destruct d; cbn; repeat split.
Qed.

Lemma delivery_precedes_commit_witness :
  exists w',
    evaluate_trade mark_to_market realized_cap gateway_down aapl_uptick
      "AAPL" aapl_world = Raise (GatewayError (buy_alert aapl)) w' /\
    calls w' = [buy_alert aapl] /\
    lookup "AAPL" (manager w') = Some (with_current_price aapl 101).
Proof.
  destruct (delivery_precedes_commit mark_to_market realized_cap gateway_down
              aapl_uptick "AAPL" aapl_world aapl Uptick)
    as (R & _).
  - reflexivity.
  - reflexivity.
  - reflexivity.
  - reflexivity.
  - reflexivity.
  - reflexivity.
  - reflexivity.
  - reflexivity.
  - exact (R eq_refl).
Defined.

(** C3 as stated fails: with a sender that raises, the BUY alert of the
    uptick 100 to 101 is attempted (the call is on record) while the state
    still has trade count 0, no last trade side and expects a buy; the
    exception leaves [evaluate_trade] and the updates are never made; with a
    sender that returns, the same evaluation commits them. *)
Lemma gateway_raise_prevents_commit :
  evaluate_trade mark_to_market realized_cap gateway_down aapl_uptick
    "AAPL" aapl_world =
  Raise (GatewayError (buy_alert aapl))
        (mkWorld [("AAPL", with_current_price aapl 101)] [buy_alert aapl]) /\
  trade_count (with_current_price aapl 101) = 0%Z /\
  last_trade_price (with_current_price aapl 101) = None /\
  last_trade_side (with_current_price aapl 101) = None /\
  expected_trade_side (with_current_price aapl 101) = "buy" /\
  exists i,
    lookup "AAPL"
      (manager (world_of (evaluate_trade mark_to_market realized_cap gateway_up
                            aapl_uptick "AAPL" aapl_world))) = Some i /\
    trade_count i = 1%Z /\
    last_trade_price i = Some 101%Q /\
    last_trade_side i = Some "buy" /\
    expected_trade_side i = "sell".
Proof.
  split; [vm_compute; reflexivity|].
  repeat (split; [reflexivity|]).
  eexists. split; [vm_compute; reflexivity|].
  repeat split.
Qed.

End Engine.

(** * indicators.py, further: how the operations of a series compose *)

Module IndicatorFacts.

Import Indicators.

Lemma lastn_map {A B : Type} (f : A -> B) (n : nat) (l : list A) :
  lastn n (map f l) = map f (lastn n l).
Proof. unfold lastn. rewrite length_map, skipn_map. reflexivity. Qed.

Lemma updates_timestamps_maxlen (s : IndicatorSeries) (pts : list (Q * Z)) :
  dq_maxlen (timestamps (updates s pts)) = dq_maxlen (timestamps s).
Proof.
  induction pts as [|p pts IH] using rev_ind; [reflexivity|].
  rewrite updates_snoc. simpl. exact IH.
Qed.

Lemma updates_init_timestamps (k : Z) (pts : list (Q * Z)) :
  dq_items (timestamps (updates (IndicatorSeries_init k) pts)) =
  lastn 200 (map snd pts).
Proof.
  induction pts as [|p pts IH] using rev_ind; [reflexivity|].
  rewrite updates_snoc. simpl.
  rewrite updates_timestamps_maxlen. simpl dq_maxlen.
  rewrite IH, map_app. simpl. apply lastn_lastn_snoc.
Qed.

Lemma combine_fst_snd {A B : Type} (l : list (A * B)) :
  combine (map fst l) (map snd l) = l.
Proof.
  induction l as [|[a b] l IH]; simpl; [reflexivity|]. rewrite IH. reflexivity.
Qed.

(** X1.  Values and timestamps of a series stay aligned: after any run of
    updates of a series built by [IndicatorSeries(maxlen=k)], the two deques
    have the same length, and pairing them item by item gives back the last
    200 points fed, oldest first. *)
Theorem values_timestamps_aligned (k : Z) (pts : list (Q * Z)) :
  let s := updates (IndicatorSeries_init k) pts in
  length (dq_items (values s)) = length (dq_items (timestamps s)) /\
  length (dq_items (values s)) = Nat.min 200 (length pts) /\
  combine (dq_items (values s)) (dq_items (timestamps s)) = lastn 200 pts.
Proof.
  cbv zeta. rewrite updates_init_values, updates_init_timestamps.
  rewrite !lastn_map, !length_map, lastn_length.
  repeat split. apply combine_fst_snd.
Qed.

(** X2.  [last_n] and [prev] read the same window: for every series and
    every [n], [last_n(n)] is the suffix of the stored values of length
    [min(n, len)] (nothing for [n <= 0], everything for [n >= len]), and for
    [1 <= n <= len] its first item is [prev(n)]. *)
Theorem last_n_window (s : IndicatorSeries) (n : Z) :
  length (last_n s n) = Nat.min (Z.to_nat n) (length (dq_items (values s))) /\
  (exists older, dq_items (values s) = older ++ last_n s n) /\
  ((Z.of_nat (length (dq_items (values s))) <= n)%Z -> (0 < n)%Z ->
   last_n s n = dq_items (values s)) /\
  ((1 <= n <= Z.of_nat (length (dq_items (values s))))%Z ->
   hd_error (last_n s n) = prev s n).
Proof.
  unfold last_n, prev.
  destruct (Z.leb_spec n 0) as [Hn|Hn].
  - replace (Z.to_nat n) with 0 by lia. simpl.
    split; [reflexivity|]. split; [exists (dq_items (values s)); apply eq_sym, app_nil_r|].
    split; intros; lia.
  - split; [apply lastn_length|].
    split.
    { exists (firstn (length (dq_items (values s)) - Z.to_nat n)
                (dq_items (values s))).
      unfold lastn. symmetry. apply firstn_skipn. }
    split.
    { intros Hall _. apply lastn_all. lia. }
    intros [H1 H2].
    destruct (Z.gtb_spec n (Z.of_nat (length (dq_items (values s)))));
      [lia|].
    simpl. unfold lastn.
    generalize (length (dq_items (values s)) - Z.to_nat n).
    generalize (dq_items (values s)).
    intros l m. revert m. induction l as [|a l IH]; intros [|m]; simpl; auto.
Qed.

End IndicatorFacts.

(** * file_stream.py, further: what a tailer sees as the file changes *)

Module TailerRuns.

Import FileStream.

(** The two halves of [crcl_line_2], as two writes would leave them. *)
Definition crcl_2_head : string :=
  "CRCL - MA Alert - 2 - price: 139.50 - SMA_20:".
Definition crcl_2_tail : string :=
  " 140.75,  EMA_20: 141.00, EMA_9: 138.90 - 20250815040203".

(** The file of [crcl_tailer] grown by a good line, a line whose stamp is
    no date, and one more good line. *)
Definition file_with_bad_date : string :=
  (nl crcl_line_1 ++ nl crcl_line_2 ++ nl crcl_line_bad_date
   ++ nl crcl_line_2)%string.

(** [tsla_line_1] written over a file of the same length. *)
Definition same_size_file : string := nl tsla_line_1.

Lemma length_append (a b : string) :
  String.length (a ++ b)%string = String.length a + String.length b.
Proof. induction a as [|c a IH]; simpl; [reflexivity|]. rewrite IH. reflexivity. Qed.

Lemma seek_append (a b : string) : seek (String.length a) (a ++ b)%string = b.
Proof. induction a as [|c a IH]; simpl; [destruct b; reflexivity|exact IH]. Qed.

(** ** The text layer: decoding what is read

    [follow] opens the file with [encoding="utf-8"]: the bytes from the
    cursor on go through the UTF-8 decoder before any line reaches the
    parser, and bytes that do not decode leave the turn by
    [UnicodeDecodeError], which [follow] does not catch. *)

Definition within (lo hi : nat) (c : ascii) : bool :=
  (lo <=? nat_of_ascii c)%nat && (nat_of_ascii c <=? hi)%nat.

(** A continuation byte, 80 to BF. *)
Definition continuation (c : ascii) : bool := within 128 191 c.

(** The second byte of a three-byte sequence: E0 takes A0 to BF (nothing
    overlong), ED takes 80 to 9F (no surrogate). *)
Definition second_of_three (lead c : ascii) : bool :=
  if Ascii.eqb lead "224"%char then within 160 191 c
  else if Ascii.eqb lead "237"%char then within 128 159 c
  else continuation c.

(** The second byte of a four-byte sequence: F0 takes 90 to BF, F4 takes 80
    to 8F (nothing above U+10FFFF). *)
Definition second_of_four (lead c : ascii) : bool :=
  if Ascii.eqb lead "240"%char then within 144 191 c
  else if Ascii.eqb lead "244"%char then within 128 143 c
  else continuation c.

(** What the strict UTF-8 decoder makes of some bytes: they decode to the
    end, or they decode up to a last sequence that is cut short after
    [pending] bytes that may still be completed, or a byte is refused. *)
Inductive Utf8 : Type :=
| Complete
| Truncated (pending : nat)
| Malformed.

Fixpoint utf8_scan (s : string) : Utf8 :=
  match s with
  | EmptyString => Complete
  | String b0 r0 =>
      if within 0 127 b0 then utf8_scan r0
      else if within 194 223 b0 then
        match r0 with
        | EmptyString => Truncated 1
        | String b1 r1 => if continuation b1 then utf8_scan r1 else Malformed
        end
      else if within 224 239 b0 then
        match r0 with
        | EmptyString => Truncated 1
        | String b1 r1 =>
            if second_of_three b0 b1 then
              match r1 with
              | EmptyString => Truncated 2
              | String b2 r2 =>
                  if continuation b2 then utf8_scan r2 else Malformed
              end
            else Malformed
        end
      else if within 240 244 b0 then
        match r0 with
        | EmptyString => Truncated 1
        | String b1 r1 =>
            if second_of_four b0 b1 then
              match r1 with
              | EmptyString => Truncated 2
              | String b2 r2 =>
                  if continuation b2 then
                    match r2 with
                    | EmptyString => Truncated 3
                    | String b3 r3 =>
                        if continuation b3 then utf8_scan r3 else Malformed
                    end
                  else Malformed
              end
            else Malformed
        end
      else Malformed
  end.

(** The text layer reads the bytes a chunk at a time and decodes each chunk
    as it comes: a chunk with a refused byte raises as a whole, and a
    sequence cut short by the end of a chunk waits for the next one.  The
    number of bytes decoded before the read that raises, [sofar] of them
    already: whole chunks up to the first with a refused byte, or all bytes
    when only the end of the data cuts a sequence short. *)
Fixpoint decoded_before_error (chunk fuel sofar : nat) (bytes : string) : nat :=
  match fuel with
  | O => sofar
  | S fuel' =>
      if (String.length bytes <=? sofar)%nat then sofar
      else
        match utf8_scan (String.substring 0 (sofar + chunk) bytes) with
        | Malformed => sofar
        | _ => decoded_before_error chunk fuel' (sofar + chunk) bytes
        end
  end.

(** The bytes without a last sequence that is cut short. *)
Definition whole_characters (bytes : string) : string :=
  match utf8_scan bytes with
  | Truncated pending =>
      String.substring 0 (String.length bytes - pending) bytes
  | _ => bytes
  end.

Fixpoint last_byte (s : string) : option ascii :=
  match s with
  | EmptyString => None
  | String c EmptyString => Some c
  | String _ rest => last_byte rest
  end.

(** The lines handed out from text that more text was expected to follow: a
    line is handed out once its terminator is known, so what follows the
    last terminator is held back, and so is a line that ends in a "\r" at the
    very end, which may yet be half of a "\r\n". *)
Definition terminated_lines (text : string) : list string :=
  match last_byte text with
  | Some c => if Ascii.eqb c LF then readlines text
              else removelast (readlines text)
  | None => []
  end.

(** What [for line in f] hands to the loop body from the bytes at the
    cursor: every line of the text, or the lines handed out before the read
    that raises [UnicodeDecodeError]. *)
Inductive TextRead : Type :=
| Decoded (lines : list string)
| DecodeError (lines : list string).

Definition read_text (chunk : nat) (bytes : string) : TextRead :=
  match utf8_scan bytes with
  | Complete => Decoded (readlines bytes)
  | _ =>
      let n := decoded_before_error chunk (S (String.length bytes)) 0 bytes in
      DecodeError
        (terminated_lines (whole_characters (String.substring 0 n bytes)))
  end.

(** The chunk size of CPython's text layer, 8192 bytes. *)
Definition text_chunk : nat := 64 * 128.

(** The bytes FF, which no UTF-8 text holds, and C3 A9, the letter e with an
    acute accent. *)
Definition byte_ff : string := String "255"%char EmptyString.
Definition e_acute_head : string := String "195"%char EmptyString.
Definition e_acute_tail : string := String "169"%char EmptyString.

Section Runs.

Variable parse_alert_line : string -> ParseOutcome.

(** The size of the chunks the text layer reads (8192 bytes in CPython);
    the tailer is studied for every size. *)
Variable chunk : nat.

(** One turn of [while True] in [follow] with the text layer in it:
    [FileStream.poll] where the bytes read decode; where they do not, the
    lines handed out before the decoder raises are scanned and the turn is
    left by the exception, before [self._pos = f.tell()]. *)
Definition poll_text (self : FileTailer) (file : option string) : Outcome :=
  match file with
  | None => Done self []
  | Some content =>
      let size := String.length content in
      let self1 := reset_if_truncated size self in
      if (_pos self1 <? size)%nat then
        match read_text chunk (seek (_pos self1) content) with
        | Decoded lines =>
            and_then (FileStream.scan_lines parse_alert_line self1 lines)
                     (fun self2 => Done (set_pos self2 (String.length content)) [])
        | DecodeError lines =>
            and_then (FileStream.scan_lines parse_alert_line self1 lines)
                     (fun self2 => Raised self2 [])
        end
      else Done self1 []
  end.

(** The turns of the loop over the successive states of the file. *)
Fixpoint polls_text (self : FileTailer) (files : list (option string))
  : Outcome :=
  match files with
  | [] => Done self []
  | file :: rest =>
      and_then (poll_text self file) (fun self' => polls_text self' rest)
  end.

Local Abbreviation scan_lines := (scan_lines parse_alert_line).
Local Abbreviation poll := (poll parse_alert_line).
Local Abbreviation polls := (polls parse_alert_line).
Local Abbreviation follow := (follow parse_alert_line).

Lemma scan_lines_pos (lines : list string) :
  forall self, _pos (tailer_of (scan_lines self lines)) = _pos self.
Proof.
  induction lines as [|line rest IH]; intros self; cbn [scan_lines];
    [reflexivity|].
  destruct (parse_alert_line line) as [alert| |]; [|apply IH|reflexivity].
  assert (P : _pos (fst (consume self alert)) = _pos self).
  { destruct (consume_cases self alert) as [(-> & _)|(-> & _)]; reflexivity. }
  unfold and_then. specialize (IH (fst (consume self alert))).
  destruct (FileStream.scan_lines parse_alert_line (fst (consume self alert)) rest);
    simpl in *; congruence.
Qed.

Lemma scan_lines_raises (lines : list string) :
  forall self,
    (exists line, In line lines /\ parse_alert_line line = ParseRaised) <->
    (exists s out, scan_lines self lines = Raised s out).
Proof.
  induction lines as [|line rest IH]; intros self; cbn [scan_lines].
  - split; [intros (l & [] & _)|intros (s & out & H); discriminate].
  - destruct (parse_alert_line line) as [alert| |] eqn:P.
    + unfold and_then. specialize (IH (fst (consume self alert))).
      split.
      * intros (l & [<-|Hin] & Hl); [congruence|].
        destruct (proj1 IH (ex_intro _ l (conj Hin Hl))) as (s & out & ->).
        eauto.
      * intros (s & out & H).
        destruct (FileStream.scan_lines parse_alert_line
                    (fst (consume self alert)) rest) as [s'|s' o'] eqn:E;
          [discriminate|].
        destruct (proj2 IH (ex_intro _ s' (ex_intro _ o' eq_refl)))
          as (l & Hin & Hl).
        exists l. split; [right; exact Hin|exact Hl].
    + rewrite <- IH. split.
      * intros (l & [<-|Hin] & Hl); [congruence|eauto].
      * intros (l & Hin & Hl). exists l. split; [right; exact Hin|exact Hl].
    + split; [eauto|]. intros _. exists line. split; [left; reflexivity|exact P].
Qed.

Lemma polls_same_size (n : nat) (files : list (option string)) :
  forall t,
    _pos t = n ->
    Forall (fun file => match file with
                        | None => True
                        | Some content => String.length content = n
                        end) files ->
    polls t files = Done t [].
Proof.
  induction files as [|file rest IH]; intros t Hp H; [reflexivity|].
  inversion H as [|f r Hf Hr]; subst f r.
  cbn [FileStream.polls].
  assert (P : poll t file = Done t []).
  { destruct file as [content|]; [|reflexivity].
    unfold FileStream.poll, reset_if_truncated. cbv zeta.
    rewrite Hp, Hf, Nat.ltb_irrefl, Hp, Nat.ltb_irrefl. reflexivity. }
  rewrite P. unfold and_then. rewrite (IH t Hp Hr). reflexivity.
Qed.

(** Where the bytes at the cursor decode, the text layer changes nothing. *)
Lemma poll_text_decoded (self : FileTailer) (content : string) :
  utf8_scan
    (seek (_pos (reset_if_truncated (String.length content) self)) content)
  = Complete ->
  poll_text self (Some content) = poll self (Some content).
Proof.
  intros U. unfold poll_text, FileStream.poll, read_text. cbv zeta.
  rewrite U. reflexivity.
Qed.

(** Where they do not, the turn is left by an exception, the cursor where
    the turn found it. *)
Lemma poll_text_undecoded (self : FileTailer) (content : string) :
  let start := reset_if_truncated (String.length content) self in
  _pos start < String.length content ->
  utf8_scan (seek (_pos start) content) <> Complete ->
  exists s out,
    poll_text self (Some content) = Raised s out /\ _pos s = _pos start.
Proof.
  intros start Hlt U. unfold poll_text, read_text. cbv zeta. fold start.
  destruct (Nat.ltb_spec (_pos start) (String.length content)); [|lia].
  destruct (utf8_scan (seek (_pos start) content)) as [|pending|];
    [contradiction| |];
    match goal with
    | |- context [FileStream.scan_lines parse_alert_line start ?ls] =>
        pose proof (scan_lines_pos ls start) as P;
        destruct (FileStream.scan_lines parse_alert_line start ls)
          as [s o|s o]; cbn [and_then]; simpl in P; eauto
    end.
Qed.

Lemma poll_text_done_pos (self self' : FileTailer) (content : string)
    (out : list ParsedAlert) :
  poll_text self (Some content) = Done self' out ->
  _pos self' = String.length content.
Proof.
  set (start := reset_if_truncated (String.length content) self).
  destruct (Nat.ltb_spec (_pos start) (String.length content)) as [Hlt|Hge].
  - destruct (utf8_scan (seek (_pos start) content)) eqn:U.
    + rewrite poll_text_decoded by exact U.
      apply (poll_done_pos parse_alert_line).
    + destruct (poll_text_undecoded self content Hlt) as (s & o & E & _).
      { fold start. rewrite U. discriminate. }
      rewrite E. discriminate.
    + destruct (poll_text_undecoded self content Hlt) as (s & o & E & _).
      { fold start. rewrite U. discriminate. }
      rewrite E. discriminate.
  - unfold poll_text. cbv zeta. fold start.
    destruct (Nat.ltb_spec (_pos start) (String.length content)) as [Q|_];
      [lia|].
    intros E. injection E as <- _.
    unfold start, reset_if_truncated in *.
    destruct (Nat.ltb_spec (String.length content) (_pos self));
      simpl in *; lia.
Qed.

End Runs.

(** X3.  While the file keeps the size it had when [follow] started, or is
    missing, the tailer yields nothing and stays where it is, whatever the
    file holds: content that replaces the old content byte for byte in
    length is never read. *)
Theorem same_size_is_never_read
    (parse : string -> ParseOutcome) (self : FileTailer) (found : string)
    (files : list (option string)) :
  Forall (fun file => match file with
                      | None => True
                      | Some content => String.length content = String.length found
                      end) files ->
  follow parse self found files = Done (set_pos self (String.length found)) [].
Proof.
  intros H. unfold follow.
  apply (polls_same_size parse (String.length found)); [reflexivity|exact H].
Qed.

Lemma same_size_is_never_read_witness :
  follow sample_parse (FileTailer_init "TSLA_price_20250815.txt" "TSLA")
    (nl crcl_line_1) [Some same_size_file; None; Some same_size_file] =
  Done (mkTailer "TSLA_price_20250815.txt" "TSLA"
                 (String.length (nl crcl_line_1)) None) [] /\
  poll sample_parse (FileTailer_init "TSLA_price_20250815.txt" "TSLA")
    (Some same_size_file) =
  Done (mkTailer "TSLA_price_20250815.txt" "TSLA"
                 (String.length same_size_file) (Some (ts tsla_1))) [tsla_1].
Proof.
  split; [|reflexivity].
  rewrite (same_size_is_never_read sample_parse
             (FileTailer_init "TSLA_price_20250815.txt" "TSLA")
             (nl crcl_line_1) [Some same_size_file; None; Some same_size_file]).
  - reflexivity.
  - repeat constructor.
Defined.

(** X4.  Append-only growth: after a turn that read the file to its end, a
    turn that finds the same bytes followed by new ones reads the new bytes
    and nothing else.  When they are valid UTF-8 it scans their lines and
    moves the cursor to the new end, so a line whose bytes arrive in two such
    turns is scanned as two fragments and never as one line.  When they are
    not, and an append that ends inside a multi-byte character is enough,
    the turn is left by the decoder's exception with the cursor at the old
    end. *)
Theorem appended_bytes_are_scanned_once
    (chunk : nat) (parse : string -> ParseOutcome) (self self1 : FileTailer)
    (old_content appended : string) (out1 : list ParsedAlert) :
  poll_text parse chunk self (Some old_content) = Done self1 out1 ->
  appended <> EmptyString ->
  _pos self1 = String.length old_content /\
  (utf8_scan appended = Complete ->
   poll_text parse chunk self1 (Some (old_content ++ appended)%string) =
   and_then (scan_lines parse self1 (readlines appended))
            (fun s => Done (set_pos s (String.length
                                         (old_content ++ appended)%string)) [])) /\
  (utf8_scan appended <> Complete ->
   exists s out,
     poll_text parse chunk self1 (Some (old_content ++ appended)%string) =
       Raised s out /\
     _pos s = String.length old_content).
Proof.
  intros H1 Hne.
  pose proof (poll_text_done_pos parse chunk self self1 old_content out1 H1)
    as Hp.
  assert (L : 0 < String.length appended).
  { destruct appended; [contradiction|simpl; lia]. }
  assert (St : reset_if_truncated
                 (String.length (old_content ++ appended)%string) self1 = self1).
  { unfold reset_if_truncated. rewrite length_append, Hp.
    destruct (Nat.ltb_spec (String.length old_content + String.length appended)
                           (String.length old_content)); [lia|reflexivity]. }
  assert (Sk : seek (_pos self1) (old_content ++ appended)%string = appended).
  { rewrite Hp. apply seek_append. }
  split; [exact Hp|]. split.
  - intros U. rewrite poll_text_decoded by (rewrite St, Sk; exact U).
    unfold poll. cbv zeta. rewrite St, Sk, length_append, Hp.
    destruct (Nat.ltb_spec (String.length old_content)
                           (String.length old_content + String.length appended));
      [reflexivity|lia].
  - intros U.
    destruct (poll_text_undecoded parse chunk self1
                (old_content ++ appended)%string) as (s & out & E & P).
    + rewrite St, length_append, Hp. lia.
    + rewrite St, Sk. exact U.
    + exists s, out. split; [exact E|]. rewrite P, St. exact Hp.
Qed.

Lemma appended_bytes_are_scanned_once_witness :
  (crcl_2_head ++ nl crcl_2_tail)%string = nl crcl_line_2 /\
  poll_text sample_parse text_chunk crcl_tailer
    (Some (nl crcl_line_1 ++ crcl_2_head)%string) =
    Done (set_pos crcl_tailer
            (String.length (nl crcl_line_1 ++ crcl_2_head)%string)) [] /\
  poll_text sample_parse text_chunk
    (set_pos crcl_tailer (String.length (nl crcl_line_1 ++ crcl_2_head)%string))
    (Some ((nl crcl_line_1 ++ crcl_2_head) ++ nl crcl_2_tail)%string) =
    Done (set_pos crcl_tailer
            (String.length ((nl crcl_line_1 ++ crcl_2_head)
                            ++ nl crcl_2_tail)%string)) [] /\
  yielded (poll_text sample_parse text_chunk crcl_tailer
             (Some (nl crcl_line_1 ++ nl crcl_line_2)%string)) = [crcl_2] /\
  exists s out,
    poll_text sample_parse text_chunk
      (set_pos crcl_tailer
         (String.length (nl crcl_line_1 ++ crcl_2_head)%string))
      (Some ((nl crcl_line_1 ++ crcl_2_head) ++ e_acute_head)%string) =
      Raised s out /\
    _pos s = String.length (nl crcl_line_1 ++ crcl_2_head)%string.
Proof.
  split; [reflexivity|]. split; [reflexivity|].
  destruct (appended_bytes_are_scanned_once text_chunk sample_parse crcl_tailer
              (set_pos crcl_tailer
                 (String.length (nl crcl_line_1 ++ crcl_2_head)%string))
              (nl crcl_line_1 ++ crcl_2_head)%string (nl crcl_2_tail) [])
    as (_ & D & _); [reflexivity|discriminate|].
  split; [rewrite (D eq_refl); reflexivity|].
  split; [reflexivity|].
  destruct (appended_bytes_are_scanned_once text_chunk sample_parse crcl_tailer
              (set_pos crcl_tailer
                 (String.length (nl crcl_line_1 ++ crcl_2_head)%string))
              (nl crcl_line_1 ++ crcl_2_head)%string e_acute_head [])
    as (_ & _ & R); [reflexivity|discriminate|].
  apply R. discriminate.
Defined.

(** X5.  A turn that has bytes to read is left by an exception exactly when
    those bytes are not valid UTF-8 or the parser raises on one of their
    lines.  The cursor is then not advanced past what was read (it is where
    the turn found it, or 0 after a truncation), and the exception ends the
    whole run: no later state of the file is looked at. *)
Theorem read_error_ends_the_run
    (chunk : nat) (parse : string -> ParseOutcome) (self : FileTailer)
    (content : string) :
  let start := reset_if_truncated (String.length content) self in
  _pos start < String.length content ->
  ((utf8_scan (seek (_pos start) content) <> Complete \/
    exists line, In line (readlines (seek (_pos start) content)) /\
                 parse line = ParseRaised) <->
   (exists s out, poll_text parse chunk self (Some content) = Raised s out)) /\
  (forall s out,
     poll_text parse chunk self (Some content) = Raised s out ->
     _pos s = _pos start /\
     forall rest,
       polls_text parse chunk self (Some content :: rest) = Raised s out).
Proof.
  intros start Hlt.
  assert (Run : forall s out,
             poll_text parse chunk self (Some content) = Raised s out ->
             forall rest,
               polls_text parse chunk self (Some content :: rest) = Raised s out).
  { intros s out H rest. cbn [polls_text]. rewrite H. reflexivity. }
  destruct (utf8_scan (seek (_pos start) content)) eqn:U.
  - assert (E : poll_text parse chunk self (Some content) =
                and_then (scan_lines parse start
                            (readlines (seek (_pos start) content)))
                  (fun s => Done (set_pos s (String.length content)) [])).
    { rewrite poll_text_decoded by exact U.
      unfold poll. cbv zeta. fold start.
      destruct (Nat.ltb_spec (_pos start) (String.length content)); [|lia].
      reflexivity. }
    split.
    + rewrite E. split.
      * intros [C|H]; [contradiction|].
        apply (scan_lines_raises parse _ start) in H.
        destruct H as (s & out & H). rewrite H. cbn [and_then]. eauto.
      * intros (s & out & H). right.
        apply (scan_lines_raises parse _ start).
        destruct (scan_lines parse start (readlines (seek (_pos start) content)))
          as [s0 o0|s0 o0]; [cbn [and_then] in H; discriminate H|eauto].
    + intros s out H. split; [|exact (Run s out H)].
      rewrite E in H.
      pose proof (scan_lines_pos parse
                    (readlines (seek (_pos start) content)) start) as P.
      destruct (scan_lines parse start (readlines (seek (_pos start) content)))
        as [s0 o0|s0 o0]; cbn [and_then] in H; [discriminate H|].
      injection H as <- _. exact P.
  - destruct (poll_text_undecoded parse chunk self content Hlt)
      as (s0 & o0 & E & P); [fold start; rewrite U; discriminate|].
    split.
    + split; [intros _; eauto|intros _; left; discriminate].
    + intros s out H. split; [|exact (Run s out H)].
      rewrite E in H. injection H as <- _. exact P.
  - destruct (poll_text_undecoded parse chunk self content Hlt)
      as (s0 & o0 & E & P); [fold start; rewrite U; discriminate|].
    split.
    + split; [intros _; eauto|intros _; left; discriminate].
    + intros s out H. split; [|exact (Run s out H)].
      rewrite E in H. injection H as <- _. exact P.
Qed.

Lemma read_error_ends_the_run_witness :
  (exists s,
     poll_text sample_parse text_chunk crcl_tailer (Some file_with_bad_date) =
       Raised s [crcl_2] /\
     _pos s = _pos crcl_tailer /\
     polls_text sample_parse text_chunk crcl_tailer
       [Some file_with_bad_date; Some (nl crcl_line_1); None] =
       Raised s [crcl_2]) /\
  poll_text sample_parse text_chunk crcl_tailer
    (Some (nl crcl_line_1 ++ byte_ff ++ nl crcl_line_2)%string) =
    Raised crcl_tailer [].
Proof.
  split; [|reflexivity].
  destruct (read_error_ends_the_run text_chunk sample_parse crcl_tailer
              file_with_bad_date) as [_ H].
  - apply Nat.ltb_lt. reflexivity.
  - eexists. split; [reflexivity|].
    destruct (H _ _ eq_refl) as [P R]. split; [exact P|apply R].
Defined.

End TailerRuns.

(** * trends.py, further: streaks of a trend *)

Module Streaks.

Import Trends.

(** A row of [records]: the parsed record and the raw line. *)
Record Row : Type := mkRow {
  rec : Rec;
  raw : string
}.

(** [l[i]] for a Python integer [i]: negative indices count from the end;
    [None] is [IndexError]. *)
Definition py_index {A : Type} (l : list A) (i : Z) : option A :=
  if (i <? 0)%Z then
    if (i <? - Z.of_nat (length l))%Z then None
    else nth_error l (Z.to_nat (Z.of_nat (length l) + i))
  else nth_error l (Z.to_nat i).

(** [records[i]["rec"]["price"]] *)
Definition price_at (records : list Row) (i : Z) : option Q :=
  option_map (fun row => price (rec row)) (py_index records i).

(** [(indices_in_streak, start_price, end_price)] *)
Definition Streak : Type := (list nat * Q * Q)%type.

Definition indices (s : Streak) : list nat := fst (fst s).
Definition start_price (s : Streak) : Q := snd (fst s).
Definition end_price (s : Streak) : Q := snd s.

(** The inner function [finalize]: it appends to [streaks], which is passed
    and returned here; [None] is an [IndexError] of one of its look-ups. *)
Definition finalize (records : list Row) (streaks : list Streak)
    (cur_idx : list nat) : option (list Streak) :=
  match cur_idx with
  | [] => Some streaks
  | first :: _ =>
      let last_i := last cur_idx first in
      let left_idx := (Z.of_nat first - 1)%Z in
      let right_idx := (Z.of_nat last_i + 1)%Z in
      match price_at records (Z.of_nat first),
            price_at records (Z.of_nat last_i) with
      | Some start0, Some end0 =>
          match (if (left_idx >=? 0)%Z then price_at records left_idx
                 else Some start0),
                (if (right_idx <? Z.of_nat (length records))%Z
                 then price_at records right_idx else Some end0) with
          | Some start1, Some end1 =>
              Some (streaks ++ [(cur_idx, start1, end1)])
          | _, _ => None
          end
      | _, _ => None
      end
  end.

(** [for i, row in enumerate(records): ...], from row [i] on. *)
Fixpoint streaks_loop (trend_fn : Rec -> bool) (records : list Row)
    (i : nat) (rows : list Row) (streaks : list Streak) (cur : list nat)
  : option (list Streak * list nat) :=
  match rows with
  | [] => Some (streaks, cur)
  | row :: rest =>
      if trend_fn (rec row) then
        streaks_loop trend_fn records (S i) rest streaks (cur ++ [i])
      else
        match finalize records streaks cur with
        | Some streaks' => streaks_loop trend_fn records (S i) rest streaks' []
        | None => None
        end
  end.

Definition find_streaks (records : list Row) (trend_fn : Rec -> bool)
  : option (list Streak) :=
  match streaks_loop trend_fn records 0 records [] [] with
  | Some (streaks, cur) => finalize records streaks cur
  | None => None
  end.

(** Whether the row at [j] is in the trend; no row, no trend. *)
Definition trend_at (trend_fn : Rec -> bool) (records : list Row) (j : nat)
  : bool :=
  match nth_error records j with
  | Some row => trend_fn (rec row)
  | None => false
  end.

(** A streak as it should be: consecutive indices [a .. a+n] of rows in the
    trend, not extendable on either side, with the price just outside on each
    side where there is a row, else the price of its own end. *)
Definition streak_ok (trend_fn : Rec -> bool) (records : list Row)
    (s : Streak) : Prop :=
  exists a n,
    indices s = seq a (S n) /\
    a + n < length records /\
    (forall j, a <= j <= a + n -> trend_at trend_fn records j = true) /\
    (a = 0 \/ trend_at trend_fn records (a - 1) = false) /\
    (a + n + 1 = length records \/
     trend_at trend_fn records (a + n + 1) = false) /\
    Some (start_price s) =
      price_at records (Z.of_nat (if (a =? 0)%nat then a else a - 1)) /\
    Some (end_price s) =
      price_at records
        (Z.of_nat (if (a + n + 1 =? length records)%nat
                   then a + n else a + n + 1)).

(** The state of the loop before row [i]: the streaks closed so far are as
    they should be, [cur] is the run of trend rows that ends just before [i],
    and together they list the trend rows before [i], in order. *)
Definition loop_inv (trend_fn : Rec -> bool) (records : list Row) (i : nat)
    (streaks : list Streak) (cur : list nat) : Prop :=
  Forall (streak_ok trend_fn records) streaks /\
  (exists c,
     c <= i /\ cur = seq c (i - c) /\
     (forall j, c <= j < i -> trend_at trend_fn records j = true) /\
     (c = 0 \/ trend_at trend_fn records (c - 1) = false)) /\
  concat (map indices streaks) ++ cur =
    filter (trend_at trend_fn records) (seq 0 i).

Lemma py_index_nat {A : Type} (l : list A) (n : nat) :
  py_index l (Z.of_nat n) = nth_error l n.
Proof.
  unfold py_index. destruct (Z.ltb_spec (Z.of_nat n) 0); [lia|].
  rewrite Nat2Z.id. reflexivity.
Qed.

Lemma price_at_in_range (records : list Row) (n : nat) :
  n < length records -> exists q, price_at records (Z.of_nat n) = Some q.
Proof.
  intros H. unfold price_at. rewrite py_index_nat.
  destruct (nth_error records n) as [row|] eqn:E.
  - simpl. eauto.
  - apply nth_error_None in E. lia.
Qed.

Lemma last_seq (a n d : nat) : last (seq a (S n)) d = a + n.
Proof.
  rewrite seq_S. rewrite last_last. reflexivity.
Qed.

Lemma filter_seq_S (g : nat -> bool) (i : nat) :
  filter g (seq 0 (S i)) = filter g (seq 0 i) ++ (if g i then [i] else []).
Proof. rewrite seq_S, filter_app. simpl. destruct (g i); reflexivity. Qed.

Section StreakFacts.

Variable trend_fn : Rec -> bool.
Variable records : list Row.

(** Closing the current run at [i], where the trend stops or the rows end. *)
Lemma finalize_closes (i : nat) (streaks : list Streak) (cur : list nat) :
  loop_inv trend_fn records i streaks cur ->
  i <= length records ->
  (i = length records \/ trend_at trend_fn records i = false) ->
  exists streaks',
    finalize records streaks cur = Some streaks' /\
    Forall (streak_ok trend_fn records) streaks' /\
    concat (map indices streaks') = concat (map indices streaks) ++ cur.
Proof.
  intros (Hok & (c & Hc & Hcur & Hin & Hleft) & Hcat) Hi Hstop.
  destruct (i - c) as [|n] eqn:En.
  - subst cur. exists streaks. simpl. rewrite app_nil_r. auto.
  - assert (Ei : i = c + n + 1) by lia.
    destruct (price_at_in_range records c) as (q0 & Q0); [lia|].
    destruct (price_at_in_range records (c + n)) as (q1 & Q1); [lia|].
    assert (L : exists sp,
      (if (Z.of_nat c - 1 >=? 0)%Z then price_at records (Z.of_nat c - 1)
       else Some q0) = Some sp /\
      Some sp = price_at records (Z.of_nat (if (c =? 0)%nat then c else c - 1))).
    { destruct (Nat.eqb_spec c 0) as [->|Hc0].
      - simpl. exists q0. split; [reflexivity|]. symmetry. exact Q0.
      - destruct (Z.geb_spec (Z.of_nat c - 1) 0) as [_|]; [|lia].
        replace (Z.of_nat c - 1)%Z with (Z.of_nat (c - 1)) by lia.
        destruct (price_at_in_range records (c - 1)) as (q & Hq); [lia|].
        exists q. rewrite Hq. auto. }
    assert (R : exists ep,
      (if (Z.of_nat (c + n) + 1 <? Z.of_nat (length records))%Z
       then price_at records (Z.of_nat (c + n) + 1) else Some q1) = Some ep /\
      Some ep = price_at records
                  (Z.of_nat (if (c + n + 1 =? length records)%nat
                             then c + n else c + n + 1))).
    { destruct (Nat.eqb_spec (c + n + 1) (length records)) as [He|Hne].
      - destruct (Z.ltb_spec (Z.of_nat (c + n) + 1)
                             (Z.of_nat (length records))); [lia|].
        exists q1. split; [reflexivity|]. symmetry. exact Q1.
      - destruct (Z.ltb_spec (Z.of_nat (c + n) + 1)
                             (Z.of_nat (length records))); [|lia].
        replace (Z.of_nat (c + n) + 1)%Z with (Z.of_nat (c + n + 1)) by lia.
        destruct (price_at_in_range records (c + n + 1)) as (q & Hq); [lia|].
        exists q. rewrite Hq. auto. }
    destruct L as (sp & L1 & L2). destruct R as (ep & R1 & R2).
    exists (streaks ++ [(cur, sp, ep)]).
    split; [|split].
    + subst cur. pose proof (last_seq c n c) as HL.
      unfold finalize. cbn [seq] in *. cbv zeta.
      rewrite HL, Q0, Q1, L1, R1. reflexivity.
    + apply Forall_app. split; [exact Hok|]. constructor; [|constructor].
      exists c, n. cbn [indices start_price end_price fst snd].
      split; [exact Hcur|]. split; [lia|].
      split; [intros j Hj; apply Hin; lia|].
      split; [exact Hleft|].
      split; [|split; assumption].
      destruct Hstop as [Hlen|Hfalse]; [left; lia|].
      right. rewrite <- Ei. exact Hfalse.
    + rewrite map_app, concat_app. simpl. rewrite app_nil_r. reflexivity.
Qed.

Lemma streaks_loop_inv (rows : list Row) :
  forall (i : nat) (streaks : list Streak) (cur : list nat) (pre : list Row),
    records = pre ++ rows -> length pre = i ->
    loop_inv trend_fn records i streaks cur ->
    exists streaks' cur',
      streaks_loop trend_fn records i rows streaks cur =
        Some (streaks', cur') /\
      loop_inv trend_fn records (length records) streaks' cur'.
Proof.
  induction rows as [|row rest IH]; intros i streaks cur pre Hrec Hlen Hinv.
  - exists streaks, cur. split; [reflexivity|].
    assert (E : length records = i).
    { rewrite Hrec, app_nil_r. exact Hlen. }
    rewrite E. exact Hinv.
  - assert (Hnth : nth_error records i = Some row).
    { rewrite Hrec, nth_error_app2 by lia.
      replace (i - length pre) with 0 by lia. reflexivity. }
    assert (Hat : trend_at trend_fn records i = trend_fn (rec row)).
    { unfold trend_at. rewrite Hnth. reflexivity. }
    assert (Hi : i < length records).
    { apply nth_error_Some. rewrite Hnth. discriminate. }
    assert (Hrec' : records = (pre ++ [row]) ++ rest).
    { rewrite <- app_assoc. exact Hrec. }
    assert (Hlen' : length (pre ++ [row]) = S i).
    { rewrite length_app. simpl. lia. }
    cbn [streaks_loop].
    destruct (trend_fn (rec row)) eqn:T.
    + apply (IH (S i) streaks (cur ++ [i]) (pre ++ [row]) Hrec' Hlen').
      destruct Hinv as (Hok & (c & Hc & Hcur & Hin & Hleft) & Hcat).
      split; [exact Hok|]. split.
      * exists c. split; [lia|]. split.
        { replace (S i - c) with (S (i - c)) by lia.
          rewrite seq_S, Hcur. f_equal. f_equal. lia. }
        split; [|exact Hleft].
        intros j Hj. destruct (Nat.eq_dec j i) as [->|]; [congruence|].
        apply Hin. lia.
      * rewrite filter_seq_S, Hat, app_assoc, Hcat. reflexivity.
    + destruct (finalize_closes i streaks cur Hinv) as (st' & F & Hok' & Hcat');
        [lia|right; congruence|].
      rewrite F.
      apply (IH (S i) st' [] (pre ++ [row]) Hrec' Hlen').
      split; [exact Hok'|]. split.
      * exists (S i). split; [lia|]. split; [rewrite Nat.sub_diag; reflexivity|].
        split; [intros j Hj; lia|].
        right. replace (S i - 1) with i by lia. congruence.
      * rewrite filter_seq_S, Hat, !app_nil_r, Hcat'.
        destruct Hinv as (_ & _ & Hcat). exact Hcat.
Qed.

(** What [find_streaks] returns. *)
Lemma find_streaks_spec :
  exists streaks,
    find_streaks records trend_fn = Some streaks /\
    Forall (streak_ok trend_fn records) streaks /\
    concat (map indices streaks) =
      filter (trend_at trend_fn records) (seq 0 (length records)).
Proof.
  destruct (streaks_loop_inv records 0 [] [] []) as (st & cur & L & Hinv).
  - reflexivity.
  - reflexivity.
  - split; [constructor|]. split; [|reflexivity].
    exists 0. repeat split; auto. intros j Hj. lia.
  - destruct (finalize_closes (length records) st cur Hinv)
      as (st' & F & Hok & Hcat); [lia|left; reflexivity|].
    exists st'. unfold find_streaks. rewrite L.
    split; [exact F|]. split; [exact Hok|].
    rewrite Hcat. destruct Hinv as (_ & _ & H). exact H.
Qed.

End StreakFacts.

(** Five rows: neutral at 10, up at 11 and 12, neutral at 13, up at 14. *)
Definition sample_rows : list Row :=
  [ mkRow (mkRec 10 5 5 5) "r0"; mkRow (mkRec 11 1 2 3) "r1";
    mkRow (mkRec 12 1 2 3) "r2"; mkRow (mkRec 13 5 5 5) "r3";
    mkRow (mkRec 14 1 2 3) "r4" ].

(** X6.  [find_streaks] never runs out of range, and its streaks partition
    the trend rows: each streak is a non-empty run of consecutive indices,
    and the streaks laid end to end are exactly the indices of the rows for
    which [trend_fn] holds, in order, each once.  No rows, no streaks. *)
Theorem find_streaks_partitions (records : list Row) (trend_fn : Rec -> bool) :
  exists streaks,
    find_streaks records trend_fn = Some streaks /\
    concat (map indices streaks) =
      filter (trend_at trend_fn records) (seq 0 (length records)) /\
    Forall (fun s => exists a n, indices s = seq a (S n)) streaks /\
    (records = [] -> streaks = []).
Proof.
  destruct (find_streaks_spec trend_fn records) as (st & F & Hok & Hcat).
  exists st. split; [exact F|]. split; [exact Hcat|]. split.
  - eapply Forall_impl; [|exact Hok].
    intros s (a & n & Hs & _). eauto.
  - intros ->. unfold find_streaks in F. simpl in F. congruence.
Qed.

(** X7.  Every streak [find_streaks] returns is maximal and carries the
    prices just outside it: the row before its first index, if there is one,
    is not in the trend and gives [start_price]; the row after its last
    index, if there is one, is not in the trend and gives [end_price]; at
    either end of the records the streak's own first or last price is
    used. *)
Theorem find_streaks_maximal (records : list Row) (trend_fn : Rec -> bool)
    (streaks : list Streak) :
  find_streaks records trend_fn = Some streaks ->
  Forall (streak_ok trend_fn records) streaks.
Proof.
  intros F.
  destruct (find_streaks_spec trend_fn records) as (st & F' & Hok & _).
  rewrite F in F'. injection F' as <-. exact Hok.
Qed.

Lemma find_streaks_maximal_witness :
  find_streaks sample_rows is_uptrend =
    Some [([1; 2], 10%Q, 13%Q); ([4], 13%Q, 14%Q)] /\
  Forall (streak_ok is_uptrend sample_rows)
         [([1; 2], 10%Q, 13%Q); ([4], 13%Q, 14%Q)].
Proof.
  split; [reflexivity|].
  apply (find_streaks_maximal sample_rows is_uptrend). reflexivity.
Defined.

End Streaks.

(** * trends.py, further: the position state and [handle_trend] *)

Module PositionMachine.

Import Trends.

Inductive Side : Type := CALL | PUT.

Definition side_eqb (a b : Side) : bool :=
  match a, b with CALL, CALL | PUT, PUT => true | _, _ => false end.

Definition side_name (s : Side) : string :=
  match s with CALL => "CALL" | PUT => "PUT" end.

Record PositionState : Type := mkState {
  side       : option Side;
  last_trend : Trend
}.

(** [PositionState()] *)
Definition PositionState_init : PositionState := mkState None None.

(** The [context] dict handed through to the broker. *)
Definition Context : Type := list (string * string).

(** The three methods of the broker that [handle_trend] calls. *)
Inductive BrokerCall : Type :=
| buy_call (symbol : string) (qty : Z) (context : Context)
| buy_put (symbol : string) (qty : Z) (context : Context)
| exit_position (symbol : string) (context : Context).

(** A call of [handle_trend] returns its label or is left by an exception of
    the broker; either way the state and the calls the broker has returned
    from are as the call left them. *)
Inductive Outcome : Type :=
| Returned (label : string) (state : PositionState) (accepted : list BrokerCall)
| Raised (state : PositionState) (accepted : list BrokerCall).

Definition state_of (r : Outcome) : PositionState :=
  match r with Returned _ s _ | Raised s _ => s end.

Definition accepted_of (r : Outcome) : list BrokerCall :=
  match r with Returned _ _ a | Raised _ a => a end.

(** Where a run of calls ends: the state, the calls the broker returned
    from, and whether the run was cut short by an exception. *)
Record RunResult : Type := mkRun {
  final_state    : PositionState;
  final_accepted : list BrokerCall;
  cut_short      : bool
}.

Section Broker.

(** The broker is the caller's: whether a call returns ([true]) or raises
    may depend on the calls it returned from before. *)
Variable broker : list BrokerCall -> BrokerCall -> bool.

(** [handle_trend(trend, state, symbol, broker, qty, context,
    reenter_on_reverse)]; [accepted] is the record of the broker's calls. *)
Definition handle_trend (trend : Trend) (state : PositionState)
    (symbol : string) (accepted : list BrokerCall) (qty : Z)
    (context : option Context) (reenter_on_reverse : bool) : Outcome :=
  let context := match context with Some c => c | None => [] end in
  match trend with
  | None => Returned "NO_TREND" (mkState (side state) None) accepted
  | Some t =>
      let desired_side := match t with UP => CALL | DOWN => PUT end in
      let buy :=
        match desired_side with
        | CALL => buy_call symbol qty context
        | PUT => buy_put symbol qty context
        end in
      match side state with
      | None =>
          if broker accepted buy then
            Returned ("OPENED_" ++ side_name desired_side)%string
                     (mkState (Some desired_side) trend) (accepted ++ [buy])
          else Raised state accepted
      | Some held =>
          if side_eqb held desired_side then
            Returned "HELD" (mkState (side state) trend) accepted
          else if broker accepted (exit_position symbol context) then
            let accepted1 := accepted ++ [exit_position symbol context] in
            if negb reenter_on_reverse then
              Returned "REVERSED_EXITED" (mkState None trend) accepted1
            else if broker accepted1 buy then
              Returned "REVERSED_EXITED_OPENED"
                       (mkState (Some desired_side) trend) (accepted1 ++ [buy])
            else Raised (mkState None (last_trend state)) accepted1
          else Raised state accepted
      end
  end.

(** A caller feeding one trend after another, each with its quantity and
    its [reenter_on_reverse], until the broker raises. *)
Fixpoint handle_trends (inputs : list (Trend * Z * bool))
    (state : PositionState) (symbol : string) (accepted : list BrokerCall)
    (context : option Context) : RunResult :=
  match inputs with
  | [] => mkRun state accepted false
  | (trend, qty, reenter) :: rest =>
      match handle_trend trend state symbol accepted qty context reenter with
      | Returned _ state' accepted' =>
          handle_trends rest state' symbol accepted' context
      | Raised state' accepted' => mkRun state' accepted' true
      end
  end.

End Broker.

(** The position the broker holds after the calls [l], from [pos]. *)
Definition position_from (pos : option Side) (l : list BrokerCall)
  : option Side :=
  fold_left (fun p c =>
               match c with
               | buy_call _ _ _ => Some CALL
               | buy_put _ _ _ => Some PUT
               | exit_position _ _ => None
               end) l pos.

(** Every buy of [l] is made flat and every exit is made holding. *)
Fixpoint orderly_from (pos : option Side) (l : list BrokerCall) : bool :=
  match l with
  | [] => true
  | c :: rest =>
      match c, pos with
      | buy_call _ _ _, None => orderly_from (Some CALL) rest
      | buy_put _ _ _, None => orderly_from (Some PUT) rest
      | exit_position _ _, Some _ => orderly_from None rest
      | _, _ => false
      end
  end.

Definition call_symbol (c : BrokerCall) : string :=
  match c with
  | buy_call s _ _ | buy_put s _ _ | exit_position s _ => s
  end.

(** The side the last trend of [inputs] that is not [None] asks for. *)
Fixpoint last_desired (inputs : list (Trend * Z * bool)) (acc : option Side)
  : option Side :=
  match inputs with
  | [] => acc
  | (Some UP, _, _) :: rest => last_desired rest (Some CALL)
  | (Some DOWN, _, _) :: rest => last_desired rest (Some PUT)
  | (None, _, _) :: rest => last_desired rest acc
  end.

Lemma position_from_app (pos : option Side) (l l' : list BrokerCall) :
  position_from pos (l ++ l') = position_from (position_from pos l) l'.
Proof. unfold position_from. apply fold_left_app. Qed.

Lemma orderly_from_app (l l' : list BrokerCall) :
  forall pos,
    orderly_from pos (l ++ l') =
    orderly_from pos l && orderly_from (position_from pos l) l'.
Proof.
  induction l as [|c l IH]; intros pos; simpl; [reflexivity|].
  destruct c, pos; simpl; try reflexivity; apply IH.
Qed.

(** What holds between the state and the broker's record. *)
Definition in_step (symbol : string) (state : PositionState)
    (accepted : list BrokerCall) : Prop :=
  side state = position_from None accepted /\
  orderly_from None accepted = true /\
  Forall (fun c => call_symbol c = symbol) accepted.

Lemma handle_trend_keeps_in_step
    (broker : list BrokerCall -> BrokerCall -> bool) (trend : Trend)
    (state : PositionState) (symbol : string) (accepted : list BrokerCall)
    (qty : Z) (context : option Context) (reenter : bool) :
  in_step symbol state accepted ->
  in_step symbol
    (state_of (handle_trend broker trend state symbol accepted qty context reenter))
    (accepted_of (handle_trend broker trend state symbol accepted qty context reenter)).
Proof.
  intros H. pose proof H as (Hs & Ho & Hf). unfold handle_trend.
  assert (Snoc : forall l c pos now,
            position_from None l = pos -> orderly_from None l = true ->
            Forall (fun c => call_symbol c = symbol) l ->
            call_symbol c = symbol ->
            orderly_from pos [c] = true ->
            position_from pos [c] = now ->
            in_step symbol (mkState now None) (l ++ [c])).
  { intros l c pos now Hp Hol Hfl Hc Hoc Hnow. unfold in_step.
    rewrite position_from_app, orderly_from_app, Hol, Hp. simpl side.
    split; [symmetry; exact Hnow|]. split; [exact Hoc|].
    apply Forall_app. split; [exact Hfl|]. constructor; [exact Hc|constructor]. }
  assert (Same : forall s t a, in_step symbol (mkState s t) a <->
                               in_step symbol (mkState s None) a).
  { intros. unfold in_step. simpl. tauto. }
  destruct trend as [t|]; [|unfold in_step; simpl; auto].
  destruct (side state) as [held|] eqn:Sd.
  - destruct (side_eqb held (match t with UP => CALL | DOWN => PUT end)) eqn:Eq.
    + unfold in_step. simpl. auto.
    + destruct (broker accepted _) eqn:B1.
      * assert (I1 : in_step symbol (mkState None None)
                       (accepted ++ [exit_position symbol
                                       match context with Some c => c | None => [] end])).
        { apply (Snoc _ _ (Some held)); auto. }
        destruct (negb reenter); [simpl; apply Same; exact I1|].
        destruct (broker (accepted ++ _) _) eqn:B2;
          [|simpl; apply Same; exact I1].
        destruct I1 as (P1 & O1 & F1). simpl in P1. simpl.
        destruct t; apply Same;
          apply (Snoc _ _ None); auto.
      * simpl. exact H.
  - destruct (broker accepted _) eqn:B1.
    + simpl. destruct t; apply Same; apply (Snoc _ _ None); auto.
    + simpl. exact H.
Qed.

(** X8.  The state never loses track of the broker.  Over any run of
    [handle_trend] calls that starts flat with a broker that has no call on
    record, whatever the trends, quantities and re-entry flags are and
    whenever the broker raises: [state.side] is the position the calls the
    broker returned from add up to, every buy was made flat and every exit
    while holding (never two buys in a row), and every call names the run's
    symbol. *)
Theorem state_tracks_broker
    (broker : list BrokerCall -> BrokerCall -> bool)
    (inputs : list (Trend * Z * bool)) (symbol : string)
    (context : option Context) :
  let r := handle_trends broker inputs PositionState_init symbol [] context in
  side (final_state r) = position_from None (final_accepted r) /\
  orderly_from None (final_accepted r) = true /\
  Forall (fun c => call_symbol c = symbol) (final_accepted r).
Proof.
  cbv zeta.
  assert (G : forall inputs state accepted,
            in_step symbol state accepted ->
            in_step symbol
              (final_state (handle_trends broker inputs state symbol accepted context))
              (final_accepted (handle_trends broker inputs state symbol accepted context))).
  { clear inputs. induction inputs as [|[[trend qty] reenter] rest IH];
      intros state accepted H; [exact H|].
    cbn [handle_trends].
    pose proof (handle_trend_keeps_in_step broker trend state symbol accepted
                  qty context reenter H) as K.
    destruct (handle_trend broker trend state symbol accepted qty context reenter)
      as [label s' a'|s' a']; simpl in K; [apply IH; exact K|exact K]. }
  apply G. unfold in_step. simpl. auto.
Qed.

(** X9.  With a broker that never raises and [reenter_on_reverse] true
    throughout, a run is never cut short and ends holding the side of the
    last trend that was not [None]: CALL after UP, PUT after DOWN; trends of
    [None] in between leave the position alone. *)
Theorem position_follows_last_trend
    (broker : list BrokerCall -> BrokerCall -> bool)
    (inputs : list (Trend * Z * bool)) (state : PositionState)
    (symbol : string) (accepted : list BrokerCall) (context : option Context) :
  (forall history call, broker history call = true) ->
  Forall (fun input => snd input = true) inputs ->
  let r := handle_trends broker inputs state symbol accepted context in
  cut_short r = false /\
  side (final_state r) = last_desired inputs (side state).
Proof.
  intros Hb Hre. cbv zeta. revert state accepted.
  induction Hre as [|[[trend qty] reenter] rest Hr _ IH]; intros state accepted;
    [simpl; auto|].
  simpl in Hr. subst reenter. cbn [handle_trends].
  unfold handle_trend.
  destruct trend as [[|]|]; destruct (side state) as [[|]|] eqn:Sd;
    simpl; rewrite ?Hb; simpl; rewrite ?Hb;
    match goal with
    | |- context [handle_trends _ _ ?s _ ?a _] =>
        destruct (IH s a) as [C S]; rewrite C, S; simpl; rewrite ?Sd; auto
    end.
Qed.

Lemma position_follows_last_trend_witness :
  side (final_state
          (handle_trends (fun _ _ => true)
             [(Some UP, 1%Z, true); (None, 1%Z, true); (Some DOWN, 2%Z, true);
              (None, 1%Z, true)]
             PositionState_init "AAPL" [] None)) = Some PUT /\
  final_accepted
    (handle_trends (fun _ _ => true)
       [(Some UP, 1%Z, true); (None, 1%Z, true); (Some DOWN, 2%Z, true);
        (None, 1%Z, true)]
       PositionState_init "AAPL" [] None) =
  [buy_call "AAPL" 1 []; exit_position "AAPL" []; buy_put "AAPL" 2 []].
Proof.
  split; [|reflexivity].
  destruct (position_follows_last_trend (fun _ _ => true)
              [(Some UP, 1%Z, true); (None, 1%Z, true); (Some DOWN, 2%Z, true);
               (None, 1%Z, true)]
              PositionState_init "AAPL" [] None) as [_ S].
  - reflexivity.
  - repeat constructor.
  - exact S.
Defined.

End PositionMachine.

(** * stream_trader.py: the pluggable criteria and the runner's callback *)

Module StreamTrader.

Import Trends.

(** The dict built from an alert line by price_alerts.py,
    [_parse_alert_line]. *)
Record AlertRec : Type := mkAlertRec {
  symbol : string;
  alert  : Z;
  price  : Q;
  sma20  : Q;
  ema20  : Q;
  ema9   : Q;
  ts     : Z
}.

(** [TradeSignal]; [extras] is a dict of strings. *)
Record TradeSignal : Type := mkSignal {
  sig_symbol : string;
  action     : string;
  reason     : string;
  timestamp  : Z;
  sig_price  : Q;
  extras     : list (string * string)
}.

(** [key in d] and [d[key]] on a dict kept as a list of items. *)
Fixpoint dict_get (key : string) (d : list (string * string)) : option string :=
  match d with
  | [] => None
  | (k, v) :: rest => if String.eqb k key then Some v else dict_get key rest
  end.

(** [if x] on an optional string: [None] and the empty string are falsy. *)
Definition truthy (x : option string) : bool :=
  match x with
  | Some s => negb (String.eqb s "")
  | None => false
  end.

(** [a == b] and [a != b] between an optional string and a string. *)
Definition is_str (x : option string) (v : string) : bool :=
  match x with Some s => String.eqb s v | None => false end.

Definition prev_name (x : option string) : string :=
  match x with Some s => s | None => "None" end.

(** [criteria_stacked(rec, ind, asset, prev_trend)]; it reads neither [ind]
    nor [asset]. *)
Definition criteria_stacked (rec : AlertRec) (ind : Indicators.Indicator)
    (prev_trend : option string) : TradeSignal :=
  let trend := derive_trend (price rec) (ema9 rec) (ema20 rec) (sma20 rec) in
  if truthy prev_trend && negb (is_str prev_trend trend)
     && (is_str prev_trend "uptrend" || is_str prev_trend "downtrend")
  then mkSignal (symbol rec) "EXIT"
         ("Trend reversed " ++ prev_name prev_trend ++ " -> " ++ trend)%string
         (ts rec) (price rec)
         [("trend", trend); ("prev_trend", prev_name prev_trend)]
  else if String.eqb trend "uptrend" then
    mkSignal (symbol rec) "BUY_CALL" "Stacked bullish trend" (ts rec)
             (price rec) [("trend", trend)]
  else if String.eqb trend "downtrend" then
    mkSignal (symbol rec) "BUY_PUT" "Stacked bearish trend" (ts rec)
             (price rec) [("trend", trend)]
  else mkSignal (symbol rec) "HOLD" "Neutral trend" (ts rec) (price rec)
                [("trend", trend)].

(** [series.values[-2] if len(series.values) >= 2 else None] *)
Definition prev_bar (series : Indicators.IndicatorSeries) : option Q :=
  let l := Indicators.dq_items (Indicators.values series) in
  if (2 <=? length l)%nat then nth_error l (length l - 2) else None.

(** [criteria_crossover(rec, ind, asset, prev_trend)]; it does not read
    [asset]. *)
Definition criteria_crossover (rec : AlertRec) (ind : Indicators.Indicator)
    (prev_trend : option string) : TradeSignal :=
  let ema9_prev := prev_bar (Indicators.ema9 ind) in
  let ema20_prev := prev_bar (Indicators.ema20 ind) in
  let bullish_now :=
    Qlt_bool (ema20 rec) (ema9 rec) && Qle_bool (sma20 rec) (price rec) in
  let bearish_now :=
    Qlt_bool (ema9 rec) (ema20 rec) && Qle_bool (price rec) (sma20 rec) in
  let crossed_up :=
    match ema9_prev, ema20_prev with
    | Some p9, Some p20 => Qle_bool p9 p20 && Qlt_bool (ema20 rec) (ema9 rec)
    | _, _ => false
    end in
  let crossed_dn :=
    match ema9_prev, ema20_prev with
    | Some p9, Some p20 => Qle_bool p20 p9 && Qlt_bool (ema9 rec) (ema20 rec)
    | _, _ => false
    end in
  if crossed_up && bullish_now then
    mkSignal (symbol rec) "BUY_CALL"
             "EMA9 crossed above EMA20 (filtered by SMA20)" (ts rec)
             (price rec) []
  else if crossed_dn && bearish_now then
    mkSignal (symbol rec) "BUY_PUT"
             "EMA9 crossed below EMA20 (filtered by SMA20)" (ts rec)
             (price rec) []
  else if is_str prev_trend "uptrend" && bearish_now then
    mkSignal (symbol rec) "EXIT" "Bullish -> bearish regime shift" (ts rec)
             (price rec) []
  else if is_str prev_trend "downtrend" && bullish_now then
    mkSignal (symbol rec) "EXIT" "Bearish -> bullish regime shift" (ts rec)
             (price rec) []
  else
    let trend :=
      if bullish_now then "uptrend"
      else if bearish_now then "downtrend" else "neutral" in
    mkSignal (symbol rec) "HOLD" "No actionable cross" (ts rec) (price rec)
             [("trend", trend)].

Section Runner.

(** [str.upper] is the library's, the watchlist and the criteria are the
    caller's. *)
Variable upper : string -> string.
Variable watched : string -> bool.
Variable criteria :
  AlertRec -> Indicators.Indicator -> option string -> TradeSignal.

(** The dict [last_trend] of [run_streaming_trader]. *)
Definition LastTrend : Type := string -> option string.

Definition set_trend (d : LastTrend) (key value : string) : LastTrend :=
  fun k => if String.eqb k key then Some value else d k.

(** [_on_update(sym, ind, rec)], as far as the dict [last_trend] and the
    signal handed to [on_signal] go; [None] when the symbol is not on the
    watchlist. *)
Definition on_update (last_trend : LastTrend) (sym : string)
    (ind : Indicators.Indicator) (rec : AlertRec)
  : LastTrend * option TradeSignal :=
  let SYM := upper sym in
  if negb (watched SYM) then (last_trend, None)
  else
    let trend := derive_trend (price rec) (ema9 rec) (ema20 rec) (sma20 rec) in
    let signal := criteria rec ind (last_trend SYM) in
    let last_trend' :=
      if negb (String.eqb (action signal) "HOLD") then
        match dict_get "trend" (extras signal) with
        | Some t => set_trend last_trend SYM t
        | None => set_trend last_trend SYM trend
        end
      else last_trend in
    (last_trend', Some signal).

(** The callback over the updates of one symbol, oldest first; the signals
    it hands on. *)
Fixpoint on_updates (last_trend : LastTrend) (sym : string)
    (updates : list (Indicators.Indicator * AlertRec)) : list TradeSignal :=
  match updates with
  | [] => []
  | (ind, rec) :: rest =>
      match on_update last_trend sym ind rec with
      | (last_trend', Some signal) =>
          signal :: on_updates last_trend' sym rest
      | (last_trend', None) => on_updates last_trend' sym rest
      end
  end.

End Runner.

(** Each action of [l] is followed by one that may follow it under
    [may_follow]. *)
Fixpoint chained (may_follow : string -> string -> bool) (l : list string)
  : Prop :=
  match l with
  | a :: ((b :: _) as rest) => may_follow a b = true /\ chained may_follow rest
  | _ => True
  end.

(** After a buy, the same buy again or an exit; after anything else,
    anything. *)
Definition no_direct_flip (a b : string) : bool :=
  if String.eqb a "BUY_CALL" then String.eqb b "BUY_CALL" || String.eqb b "EXIT"
  else if String.eqb a "BUY_PUT" then String.eqb b "BUY_PUT" || String.eqb b "EXIT"
  else true.

Lemma derive_trend_cases (p e9 e20 s : Q) :
  derive_trend p e9 e20 s = "uptrend" \/
  derive_trend p e9 e20 s = "downtrend" \/
  derive_trend p e9 e20 s = "neutral".
Proof.
  unfold derive_trend.
  destruct (Qlt_bool e20 e9 && Qlt_bool s e20 && Qle_bool e9 p); [auto|].
  destruct (Qlt_bool e9 e20 && Qlt_bool e20 s && Qle_bool p e9); auto.
Qed.

(** One call of [criteria_stacked]: the trend it files under "trend", and
    what it answers after an uptrend or a downtrend. *)
Lemma criteria_stacked_facts (rec : AlertRec) (ind : Indicators.Indicator)
    (prev_trend : option string) :
  let trend := derive_trend (price rec) (ema9 rec) (ema20 rec) (sma20 rec) in
  let sig := criteria_stacked rec ind prev_trend in
  dict_get "trend" (extras sig) = Some trend /\
  (action sig = "BUY_CALL" -> trend = "uptrend") /\
  (action sig = "BUY_PUT" -> trend = "downtrend") /\
  (prev_trend = Some "uptrend" ->
   action sig = "BUY_CALL" \/ action sig = "EXIT") /\
  (prev_trend = Some "downtrend" ->
   action sig = "BUY_PUT" \/ action sig = "EXIT").
Proof.
  cbv zeta. unfold criteria_stacked.
  destruct (derive_trend_cases (price rec) (ema9 rec) (ema20 rec) (sma20 rec))
    as [E|[E|E]]; rewrite E.
  - split; [destruct (_ && _ && _); reflexivity|].
    split; [reflexivity|].
    split; [destruct (_ && _ && _); simpl; discriminate|].
    split; intros ->; simpl; auto.
  - split; [destruct (_ && _ && _); reflexivity|].
    split; [destruct (_ && _ && _); simpl; discriminate|].
    split; [reflexivity|].
    split; intros ->; simpl; auto.
  - split; [destruct (_ && _ && _); reflexivity|].
    split; [destruct (_ && _ && _); simpl; discriminate|].
    split; [destruct (_ && _ && _); simpl; discriminate|].
    split; intros ->; simpl; auto.
Qed.

(** X10.  Under [criteria_stacked] the runner never flips a symbol
    directly: in the signals of one symbol, the signal right after a BUY_CALL
    is BUY_CALL again or EXIT, and the signal right after a BUY_PUT is
    BUY_PUT again or EXIT, whatever the records, the watchlist and the trends
    remembered at the start. *)
Theorem stacked_never_flips_directly
    (upper : string -> string) (watched : string -> bool)
    (last_trend : string -> option string) (sym : string)
    (updates : list (Indicators.Indicator * AlertRec)) :
  chained no_direct_flip
    (map action
       (on_updates upper watched criteria_stacked last_trend sym updates)).
Proof.
  assert (G : forall updates last_trend,
    let sigs := on_updates upper watched criteria_stacked last_trend sym updates in
    chained no_direct_flip (map action sigs) /\
    (last_trend (upper sym) = Some "uptrend" ->
     match sigs with
     | s :: _ => action s = "BUY_CALL" \/ action s = "EXIT"
     | [] => True
     end) /\
    (last_trend (upper sym) = Some "downtrend" ->
     match sigs with
     | s :: _ => action s = "BUY_PUT" \/ action s = "EXIT"
     | [] => True
     end)); [|apply G].
  clear updates last_trend.
  induction updates as [|[ind rec] rest IH]; intros last_trend; cbv zeta.
  - simpl. auto.
  - cbn [on_updates]. unfold on_update.
    destruct (watched (upper sym)) eqn:W; cbn [negb].
    + cbv zeta.
      destruct (criteria_stacked_facts rec ind (last_trend (upper sym)))
        as (Hx & Hcall & Hput & Hup & Hdn).
      rewrite Hx.
      set (sig := criteria_stacked rec ind (last_trend (upper sym))) in *.
      set (trend := derive_trend (price rec) (ema9 rec) (ema20 rec) (sma20 rec)) in *.
      split; [|split; [exact Hup|exact Hdn]].
      destruct (IH (if negb (String.eqb (action sig) "HOLD")
                    then set_trend last_trend (upper sym) trend
                    else last_trend)) as (C & U & D).
      cbn [map].
      destruct (on_updates upper watched criteria_stacked _ sym rest)
        as [|s2 more] eqn:R; [exact I|].
      cbn [map chained]. split; [|exact C].
      unfold no_direct_flip.
      destruct (String.eqb_spec (action sig) "BUY_CALL") as [Ec|_].
      * rewrite Ec in U. simpl in U. unfold set_trend in U.
        rewrite String.eqb_refl, (Hcall Ec) in U.
        destruct (U eq_refl) as [->| ->]; reflexivity.
      * destruct (String.eqb_spec (action sig) "BUY_PUT") as [Ep|_];
          [|reflexivity].
        rewrite Ep in D. simpl in D. unfold set_trend in D.
        rewrite String.eqb_refl, (Hput Ep) in D.
        destruct (D eq_refl) as [->| ->]; reflexivity.
    + apply IH.
Qed.

(** The record of a bullish bar that is not stacked (ema20 below sma20)
    and an indicator whose EMA series just crossed upwards. *)
Definition cross_rec : AlertRec :=
  mkAlertRec "AAPL" 1 12 (115 # 10) 11 12 20250815040103.

Definition bear_rec : AlertRec :=
  mkAlertRec "AAPL" 2 9 10 11 (105 # 10) 20250815040203.

Definition crossed_ind : Indicators.Indicator :=
  Indicators.mkIndicator
    (Indicators.updates (Indicators.IndicatorSeries_init 2048)
       [(10%Q, 1%Z); (12%Q, 2%Z)])
    (Indicators.updates (Indicators.IndicatorSeries_init 2048)
       [(11%Q, 1%Z); ((115 # 10)%Q, 2%Z)])
    (Indicators.updates (Indicators.IndicatorSeries_init 2048)
       [(11%Q, 1%Z); (11%Q, 2%Z)])
    (Indicators.updates (Indicators.IndicatorSeries_init 2048)
       [(10%Q, 1%Z); (12%Q, 2%Z)]).

(** X11.  [criteria_crossover] buys on a cross only: BUY_CALL needs a
    previous bar in both EMA series with ema9 at or below ema20 there, ema9
    above ema20 now and the price at or above sma20; BUY_PUT the mirror
    image; with fewer than two values in either EMA series it never buys;
    and it answers EXIT only when the remembered trend is "uptrend" or
    "downtrend". *)
Theorem crossover_buys_on_a_cross (rec : AlertRec)
    (ind : Indicators.Indicator) (prev_trend : option string) :
  let sig := criteria_crossover rec ind prev_trend in
  (action sig = "BUY_CALL" ->
   exists p9 p20,
     prev_bar (Indicators.ema9 ind) = Some p9 /\
     prev_bar (Indicators.ema20 ind) = Some p20 /\
     (p9 <= p20)%Q /\ (ema20 rec < ema9 rec)%Q /\ (sma20 rec <= price rec)%Q) /\
  (action sig = "BUY_PUT" ->
   exists p9 p20,
     prev_bar (Indicators.ema9 ind) = Some p9 /\
     prev_bar (Indicators.ema20 ind) = Some p20 /\
     (p20 <= p9)%Q /\ (ema9 rec < ema20 rec)%Q /\ (price rec <= sma20 rec)%Q) /\
  (length (Indicators.dq_items (Indicators.values (Indicators.ema9 ind))) < 2 \/
   length (Indicators.dq_items (Indicators.values (Indicators.ema20 ind))) < 2 ->
   action sig <> "BUY_CALL" /\ action sig <> "BUY_PUT") /\
  (action sig = "EXIT" ->
   prev_trend = Some "uptrend" \/ prev_trend = Some "downtrend").
Proof.
  cbv zeta. unfold criteria_crossover. cbv zeta.
  assert (Short : forall series,
            length (Indicators.dq_items (Indicators.values series)) < 2 ->
            prev_bar series = None).
  { intros series H. unfold prev_bar. cbv zeta.
    destruct (Nat.leb_spec 2 (length (Indicators.dq_items
                                        (Indicators.values series))));
      [lia|reflexivity]. }
  assert (Is : forall x v, is_str x v = true -> x = Some v).
  { intros [x|] v H; simpl in H; [|discriminate].
    apply String.eqb_eq in H. congruence. }
  destruct (prev_bar (Indicators.ema9 ind)) as [p9|] eqn:P9;
    destruct (prev_bar (Indicators.ema20 ind)) as [p20|] eqn:P20.
  - destruct (Qle_bool p9 p20 && Qlt_bool (ema20 rec) (ema9 rec)
              && (Qlt_bool (ema20 rec) (ema9 rec)
                  && Qle_bool (sma20 rec) (price rec))) eqn:Up.
    + apply andb_true_iff in Up. destruct Up as [U1 U2].
      apply andb_true_iff in U1, U2. destruct U1 as [U1 _], U2 as [U2 U3].
      apply Qle_bool_iff in U1, U3. apply Qlt_bool_iff in U2.
      cbn [action]. split; [intros _; exists p9, p20; auto|].
      split; [discriminate|]. split; [|discriminate].
      intros [H|H]; [rewrite (Short _ H) in P9|rewrite (Short _ H) in P20];
        discriminate.
    + destruct (Qle_bool p20 p9 && Qlt_bool (ema9 rec) (ema20 rec)
                && (Qlt_bool (ema9 rec) (ema20 rec)
                    && Qle_bool (price rec) (sma20 rec))) eqn:Dn.
      * apply andb_true_iff in Dn. destruct Dn as [D1 D2].
        apply andb_true_iff in D1, D2. destruct D1 as [D1 _], D2 as [D2 D3].
        apply Qle_bool_iff in D1, D3. apply Qlt_bool_iff in D2.
        cbn [action]. split; [discriminate|].
        split; [intros _; exists p9, p20; auto|]. split; [|discriminate].
        intros [H|H]; [rewrite (Short _ H) in P9|rewrite (Short _ H) in P20];
          discriminate.
      * destruct (is_str prev_trend "uptrend" && _) eqn:X1.
        { apply andb_true_iff in X1. destruct X1 as [X1 _].
          cbn [action]. repeat split; try discriminate. auto. }
        destruct (is_str prev_trend "downtrend" && _) eqn:X2.
        { apply andb_true_iff in X2. destruct X2 as [X2 _].
          cbn [action]. repeat split; try discriminate. auto. }
        cbn [action]. repeat split; discriminate.
  - cbn [andb].
    destruct (is_str prev_trend "uptrend" && _) eqn:X1.
    { apply andb_true_iff in X1. destruct X1 as [X1 _].
      cbn [action]. repeat split; try discriminate. auto. }
    destruct (is_str prev_trend "downtrend" && _) eqn:X2.
    { apply andb_true_iff in X2. destruct X2 as [X2 _].
      cbn [action]. repeat split; try discriminate. auto. }
    cbn [action]. repeat split; discriminate.
  - cbn [andb].
    destruct (is_str prev_trend "uptrend" && _) eqn:X1.
    { apply andb_true_iff in X1. destruct X1 as [X1 _].
      cbn [action]. repeat split; try discriminate. auto. }
    destruct (is_str prev_trend "downtrend" && _) eqn:X2.
    { apply andb_true_iff in X2. destruct X2 as [X2 _].
      cbn [action]. repeat split; try discriminate. auto. }
    cbn [action]. repeat split; discriminate.
  - cbn [andb].
    destruct (is_str prev_trend "uptrend" && _) eqn:X1.
    { apply andb_true_iff in X1. destruct X1 as [X1 _].
      cbn [action]. repeat split; try discriminate. auto. }
    destruct (is_str prev_trend "downtrend" && _) eqn:X2.
    { apply andb_true_iff in X2. destruct X2 as [X2 _].
      cbn [action]. repeat split; try discriminate. auto. }
    cbn [action]. repeat split; discriminate.
Qed.

(** X12.  Under [criteria_crossover] the runner remembers
    [derive_trend]'s answer, not the cross: after any signal of that criteria
    other than HOLD, [last_trend] of the symbol is what [derive_trend] says of
    the record.  When that is "neutral", the next record of the symbol is
    never answered with EXIT, whatever it holds: a position bought on a cross
    in a bar that [derive_trend] calls neutral is not exited on the regime
    shift. *)
Theorem crossover_remembers_derive_trend
    (upper : string -> string) (watched : string -> bool)
    (last_trend : string -> option string) (sym : string)
    (ind : Indicators.Indicator) (rec : AlertRec)
    (last_trend' : string -> option string) (sig : TradeSignal) :
  on_update upper watched criteria_crossover last_trend sym ind rec =
    (last_trend', Some sig) ->
  action sig <> "HOLD" ->
  last_trend' (upper sym) =
    Some (derive_trend (price rec) (ema9 rec) (ema20 rec) (sma20 rec)) /\
  (derive_trend (price rec) (ema9 rec) (ema20 rec) (sma20 rec) = "neutral" ->
   forall ind2 rec2 last_trend2 sig2,
     on_update upper watched criteria_crossover last_trend' sym ind2 rec2 =
       (last_trend2, Some sig2) ->
     action sig2 <> "EXIT").
Proof.
  unfold on_update. intros H Hnh.
  destruct (watched (upper sym)) eqn:W; cbn [negb] in *; [|discriminate].
  cbv zeta in H. injection H as Hl Hs. subst sig.
  assert (Ex : dict_get "trend"
                 (extras (criteria_crossover rec ind (last_trend (upper sym))))
               = None).
  { revert Hnh. unfold criteria_crossover. cbv zeta.
    repeat match goal with
           | |- context [if ?c then _ else _] => destruct c
           end; cbn [action extras]; intros Hnh;
      try reflexivity; contradiction. }
  rewrite Ex in Hl.
  destruct (String.eqb_spec
              (action (criteria_crossover rec ind (last_trend (upper sym))))
              "HOLD") as [|_]; [contradiction|].
  cbn [negb] in Hl. subst last_trend'.
  split; [unfold set_trend; rewrite String.eqb_refl; reflexivity|].
  intros Hn ind2 rec2 last_trend2 sig2 H2.
  cbv zeta in H2. injection H2 as _ <-.
  intros Hexit.
  destruct (crossover_buys_on_a_cross rec2 ind2
              (set_trend last_trend (upper sym)
                 (derive_trend (price rec) (ema9 rec) (ema20 rec) (sma20 rec))
                 (upper sym))) as (_ & _ & _ & Hx).
  unfold set_trend in Hx, Hexit. rewrite String.eqb_refl, Hn in Hx, Hexit.
  destruct (Hx Hexit); discriminate.
Qed.

Lemma crossover_remembers_derive_trend_witness :
  action (criteria_crossover cross_rec crossed_ind None) = "BUY_CALL" /\
  set_trend (fun _ => None) "AAPL" "neutral" "AAPL" = Some "neutral" /\
  action (criteria_crossover bear_rec crossed_ind (Some "neutral")) <> "EXIT".
Proof.
  split; [reflexivity|].
  destruct (crossover_remembers_derive_trend (fun s => s) (fun _ => true)
              (fun _ => None) "AAPL" crossed_ind cross_rec
              (set_trend (fun _ => None) "AAPL" "neutral")
              (criteria_crossover cross_rec crossed_ind None))
    as [L N].
  - reflexivity.
  - discriminate.
  - split; [exact L|].
    exact (N eq_refl crossed_ind bear_rec _ _ eq_refl).
Defined.

End StreamTrader.

(** * file_stream.py, further: the batches of [merged_file_stream] *)

Module Merger.

Import FileStream.

(** The dict [queues], in the order of its keys: one FIFO queue per
    symbol. *)
Definition Queues : Type := list (string * list ParsedAlert).

(** What happens between two suspension points of the event loop: a pump
    puts one alert of its tailer on the queue of the tailer's symbol (the
    queues are unbounded, a put never waits), or the merger runs one turn of
    its [while True] loop. *)
Inductive Event : Type :=
| Put (sym : string) (alert : ParsedAlert)
| Turn.

(** [await queues[sym].put(alert)] *)
Definition put (sym : string) (alert : ParsedAlert) (queues : Queues) : Queues :=
  map (fun kq => if String.eqb (fst kq) sym
                 then (fst kq, snd kq ++ [alert]) else kq) queues.

(** The [for sym, q in queues.items()] loop of one turn: every queue is
    emptied with [get_nowait], in the order of the dict; the batch and the
    queues it leaves. *)
Definition drain (queues : Queues) : list ParsedAlert * Queues :=
  (concat (map snd queues), map (fun kq => (fst kq, [])) queues).

(** The batches yielded over a sequence of events, and the queues at its
    end; [if batch: yield batch]. *)
Fixpoint merged (events : list Event) (queues : Queues)
  : list (list ParsedAlert) * Queues :=
  match events with
  | [] => ([], queues)
  | Put sym alert :: rest => merged rest (put sym alert queues)
  | Turn :: rest =>
      let (batch, queues') := drain queues in
      let (batches, final) := merged rest queues' in
      (match batch with [] => batches | _ :: _ => batch :: batches end, final)
  end.

(** [queues = {t.symbol: asyncio.Queue() for t in tailers}] *)
Definition fresh_queues (symbols : list string) : Queues :=
  map (fun s => (s, [])) symbols.

(** The queue under [s]; nothing if there is none. *)
Fixpoint queue_of (s : string) (queues : Queues) : list ParsedAlert :=
  match queues with
  | [] => []
  | (k, q) :: rest => if String.eqb k s then q else queue_of s rest
  end.

(** The alerts put under [s] by the events, in order. *)
Fixpoint puts_of (s : string) (events : list Event) : list ParsedAlert :=
  match events with
  | [] => []
  | Put sym alert :: rest =>
      if String.eqb sym s then alert :: puts_of s rest else puts_of s rest
  | Turn :: rest => puts_of s rest
  end.

Definition of_symbol (s : string) (a : ParsedAlert) : bool :=
  String.eqb (symbol a) s.

(** Each pump puts alerts of its own symbol only (what a tailer yields),
    under a key of the dict. *)
Definition pumps_ok (keys : list string) (events : list Event) : Prop :=
  Forall (fun e => match e with
                   | Put sym alert => symbol alert = sym /\ In sym keys
                   | Turn => True
                   end) events.

(** The keys are distinct and each queue holds alerts of its key only. *)
Definition queues_ok (queues : Queues) : Prop :=
  NoDup (map fst queues) /\
  Forall (fun kq => Forall (fun a => symbol a = fst kq) (snd kq)) queues.

Lemma filter_own (s : string) (q : list ParsedAlert) :
  Forall (fun a => symbol a = s) q -> filter (of_symbol s) q = q.
Proof.
  induction 1 as [|a q Ha _ IH]; simpl; [reflexivity|].
  unfold of_symbol at 1. rewrite Ha, String.eqb_refl, IH. reflexivity.
Qed.

Lemma filter_other (s k : string) (q : list ParsedAlert) :
  k <> s -> Forall (fun a => symbol a = k) q -> filter (of_symbol s) q = [].
Proof.
  intros NE. induction 1 as [|a q Ha _ IH]; simpl; [reflexivity|].
  unfold of_symbol at 1. rewrite Ha.
  destruct (String.eqb_spec k s); [contradiction|exact IH].
Qed.

Lemma filter_absent (s : string) (queues : Queues) :
  ~ In s (map fst queues) ->
  Forall (fun kq => Forall (fun a => symbol a = fst kq) (snd kq)) queues ->
  filter (of_symbol s) (concat (map snd queues)) = [] /\ queue_of s queues = [].
Proof.
  intros Hn H. induction H as [|[k q] rest Hq _ IH]; simpl; [auto|].
  simpl in Hn, Hq.
  destruct IH as [I1 I2]; [tauto|].
  rewrite filter_app, I1, (filter_other s k q); [|intros ->; tauto|exact Hq].
  destruct (String.eqb_spec k s) as [->|_]; [tauto|auto].
Qed.

Lemma filter_queues (s : string) (queues : Queues) :
  queues_ok queues ->
  filter (of_symbol s) (concat (map snd queues)) = queue_of s queues.
Proof.
  intros [Hnd H]. induction H as [|[k q] rest Hq Hr IH]; simpl; [reflexivity|].
  simpl in Hnd, Hq. inversion Hnd as [|k' l' Hnot Hnd']; subst.
  rewrite filter_app.
  destruct (String.eqb_spec k s) as [->|NE].
  - destruct (filter_absent s rest Hnot Hr) as [-> _].
    rewrite (filter_own s q Hq). apply app_nil_r.
  - rewrite (filter_other s k q NE Hq). simpl. apply IH. exact Hnd'.
Qed.

Lemma put_keys (sym : string) (a : ParsedAlert) (queues : Queues) :
  map fst (put sym a queues) = map fst queues.
Proof.
  unfold put. rewrite map_map. apply map_ext.
  intros [k q]. simpl. destruct (String.eqb k sym); reflexivity.
Qed.

Lemma queue_of_put_other (s sym : string) (a : ParsedAlert) (queues : Queues) :
  sym <> s -> queue_of s (put sym a queues) = queue_of s queues.
Proof.
  intros NE. induction queues as [|[k q] rest IH]; simpl; [reflexivity|].
  destruct (String.eqb_spec k sym) as [->|Hk]; simpl.
  - destruct (String.eqb_spec sym s); [contradiction|exact IH].
  - rewrite IH. reflexivity.
Qed.

Lemma queue_of_put_same (sym : string) (a : ParsedAlert) (queues : Queues) :
  In sym (map fst queues) ->
  queue_of sym (put sym a queues) = queue_of sym queues ++ [a].
Proof.
  induction queues as [|[k q] rest IH]; simpl; [tauto|].
  intros Hin.
  destruct (String.eqb_spec k sym) as [->|Hk]; simpl.
  - rewrite String.eqb_refl. reflexivity.
  - destruct (String.eqb_spec k sym); [contradiction|].
    apply IH. destruct Hin; [contradiction|assumption].
Qed.

Lemma queue_of_put (s sym : string) (a : ParsedAlert) (queues : Queues) :
  In sym (map fst queues) ->
  queue_of s (put sym a queues) =
  queue_of s queues ++ (if String.eqb sym s then [a] else []).
Proof.
  intros Hin. destruct (String.eqb_spec sym s) as [<-|NE].
  - apply queue_of_put_same. exact Hin.
  - rewrite app_nil_r. apply queue_of_put_other. exact NE.
Qed.

Lemma queues_ok_put (sym : string) (a : ParsedAlert) (queues : Queues) :
  queues_ok queues -> symbol a = sym -> queues_ok (put sym a queues).
Proof.
  intros [Hnd H] Ha. split; [rewrite put_keys; exact Hnd|].
  unfold put. apply Forall_map.
  eapply Forall_impl; [|exact H].
  intros [k q] Hq. simpl in *.
  destruct (String.eqb_spec k sym) as [->|]; simpl; [|exact Hq].
  apply Forall_app. auto.
Qed.

Lemma queues_ok_drain (queues : Queues) :
  queues_ok queues ->
  queues_ok (snd (drain queues)) /\
  map fst (snd (drain queues)) = map fst queues /\
  forall s, queue_of s (snd (drain queues)) = [].
Proof.
  intros [Hnd _]. unfold drain. simpl.
  assert (K : map fst (map (fun kq : string * list ParsedAlert =>
                              (fst kq, @nil ParsedAlert))
                         queues) = map fst queues).
  { rewrite map_map. reflexivity. }
  split; [split; [rewrite K; exact Hnd|]|split; [exact K|]].
  - apply Forall_map. apply Forall_forall. intros; simpl; constructor.
  - intros s. clear Hnd K.
    induction queues as [|[k q] rest IH]; simpl; [reflexivity|].
    destruct (String.eqb k s); [reflexivity|exact IH].
Qed.

Lemma merged_spec (events : list Event) :
  forall queues,
    queues_ok queues -> pumps_ok (map fst queues) events ->
    Forall (fun batch => batch <> []) (fst (merged events queues)) /\
    (forall s,
       filter (of_symbol s) (concat (fst (merged events queues)))
         ++ queue_of s (snd (merged events queues)) =
       queue_of s queues ++ puts_of s events).
Proof.
  induction events as [|[sym a|] rest IH]; intros queues Hok Hp.
  - simpl. split; [constructor|]. intros s. rewrite app_nil_r. reflexivity.
  - inversion Hp as [|e l Hhead Hrest]; subst.
    destruct Hhead as [Ha Hin]. subst sym.
    cbn [merged puts_of].
    destruct (IH (put (symbol a) a queues)) as [F E].
    + apply queues_ok_put; auto.
    + rewrite put_keys. exact Hrest.
    + split; [exact F|]. intros s. rewrite E, (queue_of_put s _ a queues Hin).
      rewrite <- app_assoc. destruct (String.eqb (symbol a) s); reflexivity.
  - inversion Hp as [|e l _ Hrest]; subst.
    cbn [merged puts_of].
    destruct (queues_ok_drain queues Hok) as (Hok' & Hk & Hempty).
    destruct (IH (snd (drain queues)) Hok') as [F E];
      [rewrite Hk; exact Hrest|].
    pose proof (filter_queues) as FQ.
    unfold drain in *. cbn [fst snd] in *.
    destruct (merged rest (map (fun kq => (fst kq, [])) queues))
      as [batches final] eqn:M.
    cbn [fst snd] in *.
    destruct (concat (map snd queues)) as [|b batch] eqn:C.
    + cbn [fst snd]. split; [exact F|]. intros s.
      rewrite E, Hempty, <- (FQ s queues Hok), C. reflexivity.
    + cbn [fst snd]. split; [constructor; [discriminate|exact F]|].
      intros s. cbn [concat]. rewrite filter_app, <- app_assoc, E, Hempty.
      rewrite <- C, (FQ s queues Hok). reflexivity.
Qed.

(** X13.  The merger neither loses, duplicates nor reorders a symbol's
    alerts, and never yields an empty batch.  However the puts of the pumps
    and the turns of the merger interleave, as long as each pump puts alerts
    of its own symbol: laying the batches end to end and keeping the alerts
    of one symbol, then what is still queued for it, gives exactly the alerts
    put for that symbol, in the order they were put. *)
Theorem merger_keeps_each_symbols_order
    (symbols : list string) (events : list Event) (s : string) :
  NoDup symbols ->
  pumps_ok symbols events ->
  Forall (fun batch => batch <> [])
         (fst (merged events (fresh_queues symbols))) /\
  filter (of_symbol s) (concat (fst (merged events (fresh_queues symbols))))
    ++ queue_of s (snd (merged events (fresh_queues symbols))) =
  puts_of s events.
Proof.
  intros Hnd Hp.
  assert (K : map fst (fresh_queues symbols) = symbols).
  { unfold fresh_queues. rewrite map_map. simpl. apply map_id. }
  destruct (merged_spec events (fresh_queues symbols)) as [F E].
  - split; [rewrite K; exact Hnd|].
    unfold fresh_queues. apply Forall_map. apply Forall_forall.
    intros; simpl; constructor.
  - rewrite K. exact Hp.
  - split; [exact F|]. rewrite E.
    assert (Z0 : queue_of s (fresh_queues symbols) = []).
    { clear. induction symbols as [|k l IH]; simpl; [reflexivity|].
      destruct (String.eqb k s); [reflexivity|exact IH]. }
    rewrite Z0. reflexivity.
Qed.

Lemma merger_keeps_each_symbols_order_witness :
  fst (merged [Put "TSLA" tsla_1; Put "CRCL" crcl_1; Turn; Turn;
               Put "CRCL" crcl_2; Turn]
              (fresh_queues ["CRCL"; "TSLA"])) =
    [[crcl_1; tsla_1]; [crcl_2]] /\
  filter (of_symbol "CRCL")
    (concat (fst (merged [Put "TSLA" tsla_1; Put "CRCL" crcl_1; Turn; Turn;
                          Put "CRCL" crcl_2; Turn]
                         (fresh_queues ["CRCL"; "TSLA"]))))
    ++ queue_of "CRCL"
         (snd (merged [Put "TSLA" tsla_1; Put "CRCL" crcl_1; Turn; Turn;
                       Put "CRCL" crcl_2; Turn]
                      (fresh_queues ["CRCL"; "TSLA"]))) =
    [crcl_1; crcl_2].
Proof.
  split; [reflexivity|].
  destruct (merger_keeps_each_symbols_order ["CRCL"; "TSLA"]
              [Put "TSLA" tsla_1; Put "CRCL" crcl_1; Turn; Turn;
               Put "CRCL" crcl_2; Turn] "CRCL") as [_ E].
  - apply NoDup_cons; [simpl; intros [H|[]]; discriminate H|].
    apply NoDup_cons; [simpl; tauto|apply NoDup_nil].
  - unfold pumps_ok.
    repeat (apply Forall_cons; [simpl; auto|]). apply Forall_nil.
  - exact E.
Defined.

End Merger.

(** * stocks.py: lot rounding, the trend state and the tags of a [Stock] *)

Module Stocks.

Import Trends.

(** [Stock.round_qty(qty)] for a stock of lot size [lot_size]:
    [max(lot_size, (qty // lot_size) * lot_size)]; [None] is the
    [ZeroDivisionError] of a lot size of 0.  [//] is floor division, as
    [Z.div] is. *)
Definition round_qty (lot_size qty : Z) : option Z :=
  if (lot_size =? 0)%Z then None
  else Some (Z.max lot_size (qty / lot_size * lot_size))%Z.

(** The two trend fields of a [Stock]. *)
Record TrendState : Type := mkTrendState {
  trend          : Trend;
  previous_trend : Trend
}.

(** [set_trend(new_trend)]; the state it leaves (it returns the new
    trend). *)
Definition set_trend (self : TrendState) (new_trend : Trend) : TrendState :=
  mkTrendState new_trend (trend self).

(** [update_trend_from_record(rec)] *)
Definition update_trend_from_record (self : TrendState) (rec : Rec)
  : TrendState :=
  set_trend self (trend_of rec).

Definition trend_eqb (a b : TrendLit) : bool :=
  match a, b with UP, UP | DOWN, DOWN => true | _, _ => false end.

(** [reversed_trend()] *)
Definition reversed_trend (self : TrendState) : bool :=
  match previous_trend self, trend self with
  | Some p, Some t => negb (trend_eqb t p)
  | _, _ => false
  end.

(** [tag in tags], and [tags.remove(tag)], which takes out the first
    occurrence. *)
Fixpoint mem (tag : string) (tags : list string) : bool :=
  match tags with
  | [] => false
  | t :: rest => String.eqb t tag || mem tag rest
  end.

Fixpoint remove_first (tag : string) (tags : list string) : list string :=
  match tags with
  | [] => []
  | t :: rest => if String.eqb t tag then rest else t :: remove_first tag rest
  end.

(** The attribute [tags] of a [Stock] object, [None] when the object has no
    such attribute.  [Stock] keeps its hand-written [__init__], which sets
    [symbol] and nothing else, and [tags] is a field with a default factory,
    for which a dataclass leaves no class attribute: a [Stock] fresh from its
    constructor has no [tags]. *)
Definition Tags : Type := option (list string).

Definition Stock_init_tags : Tags := None.

(** A call returns, leaving the attribute as given, or is left by the
    [AttributeError] of reading [self.tags]. *)
Inductive Called : Type :=
| Returned (tags : Tags)
| AttributeError.

(** [if tag not in self.tags: self.tags.append(tag)] *)
Definition add_tag (tags : Tags) (tag : string) : Called :=
  match tags with
  | None => AttributeError
  | Some l => Returned (Some (if negb (mem tag l) then l ++ [tag] else l))
  end.

(** [if tag in self.tags: self.tags.remove(tag)] *)
Definition remove_tag (tags : Tags) (tag : string) : Called :=
  match tags with
  | None => AttributeError
  | Some l => Returned (Some (if mem tag l then remove_first tag l else l))
  end.

(** A call of one of the two. *)
Inductive TagOp : Type := Add (tag : string) | Remove (tag : string).

Definition apply_op (tags : Tags) (op : TagOp) : Called :=
  match op with Add t => add_tag tags t | Remove t => remove_tag tags t end.

(** The calls [ops] in turn; the first exception ends the run. *)
Fixpoint apply_ops (tags : Tags) (ops : list TagOp) : Called :=
  match ops with
  | [] => Returned tags
  | op :: rest =>
      match apply_op tags op with
      | Returned tags' => apply_ops tags' rest
      | AttributeError => AttributeError
      end
  end.

(** Whether [tag] is tagged after the calls [ops], read as calls on a set;
    [start] is whether it was tagged before. *)
Definition tagged_after (ops : list TagOp) (tag : string) (start : bool) : bool :=
  fold_left (fun b op =>
               match op with
               | Add t => if String.eqb t tag then true else b
               | Remove t => if String.eqb t tag then false else b
               end) ops start.

(** X14.  [round_qty] rounds down to whole lots but never below one lot:
    for a positive lot size the result is a multiple of the lot size, at
    least one lot (also for a quantity of 0 or below), and for a quantity of
    at least one lot it is the largest multiple not above the quantity;
    rounding twice changes nothing.  The call fails exactly for a lot size
    of 0. *)
Theorem round_qty_whole_lots (lot_size qty : Z) :
  (round_qty lot_size qty = None <-> lot_size = 0%Z) /\
  ((0 < lot_size)%Z ->
   exists r,
     round_qty lot_size qty = Some r /\
     (lot_size <= r)%Z /\
     (exists k, r = k * lot_size)%Z /\
     ((lot_size <= qty)%Z -> (r <= qty < r + lot_size)%Z) /\
     ((qty < lot_size)%Z -> r = lot_size) /\
     round_qty lot_size r = Some r).
Proof.
  split.
  { unfold round_qty. destruct (Z.eqb_spec lot_size 0) as [E|E].
    - tauto.
    - split; [discriminate|contradiction]. }
  intros Hl. unfold round_qty.
  destruct (Z.eqb_spec lot_size 0) as [|_]; [lia|].
  pose proof (Z.div_mod qty lot_size ltac:(lia)) as Hdm.
  pose proof (Z.mod_pos_bound qty lot_size Hl) as Hm.
  set (d := (qty / lot_size)%Z) in *.
  exists (Z.max lot_size (d * lot_size)).
  split; [reflexivity|]. split; [lia|].
  assert (Hcase : (lot_size <= qty -> 1 <= d)%Z /\ (qty < lot_size -> d <= 0)%Z).
  { split; intros H.
    - destruct (Z_lt_le_dec d 1); [|lia]. assert (d <= 0)%Z by lia. nia.
    - destruct (Z_lt_le_dec 0 d); [|lia]. nia. }
  destruct Hcase as [Hge Hlt].
  split; [|split; [|split]].
  - destruct (Z_lt_le_dec qty lot_size) as [H|H].
    + exists 1%Z. specialize (Hlt H). nia.
    + exists d. specialize (Hge H). nia.
  - intros H. specialize (Hge H). nia.
  - intros H. specialize (Hlt H). nia.
  - destruct (Z.eqb_spec lot_size 0) as [|_]; [lia|]. f_equal.
    destruct (Z_lt_le_dec qty lot_size) as [H|H].
    + specialize (Hlt H).
      replace (Z.max lot_size (d * lot_size)) with lot_size by nia.
      rewrite Z.div_same by lia. lia.
    + specialize (Hge H).
      replace (Z.max lot_size (d * lot_size)) with (d * lot_size)%Z by nia.
      rewrite Z.div_mul by lia. nia.
Qed.

Lemma round_qty_whole_lots_witness :
  round_qty 100 0 = Some 100%Z /\ round_qty 100 250 = Some 200%Z /\
  round_qty 0 250 = None.
Proof.
  destruct (round_qty_whole_lots 100 0) as [_ H].
  destruct (H eq_refl) as (r & E & _ & _ & _ & S & _).
  split; [rewrite E, (S eq_refl); reflexivity|].
  split; [reflexivity|].
  apply (proj1 (round_qty_whole_lots 0 250)). reflexivity.
Defined.

(** The state after [update_trend_from_record] was called on each record of
    [recs] in turn. *)
Definition update_trends (self : TrendState) (recs : list Rec) : TrendState :=
  fold_left update_trend_from_record recs self.

Lemma reversed_after_two (self : TrendState) (a b : Trend) :
  reversed_trend (set_trend (set_trend self a) b) = true <->
  (a = Some UP /\ b = Some DOWN) \/ (a = Some DOWN /\ b = Some UP).
Proof.
  unfold reversed_trend, set_trend. cbn.
  destruct a as [[|]|], b as [[|]|]; cbn; split; intros H;
    try discriminate H; try reflexivity; auto;
    destruct H as [[H1 H2]|[H1 H2]]; discriminate.
Qed.

(** X15.  After any run of [update_trend_from_record] that ends with the
    records [r1], [r2], [reversed_trend()] is true exactly when one of the
    two is stacked upward (sma20 < ema20 < ema9) and the other downward
    (sma20 > ema20 > ema9): only the last two records count, and a neutral
    record in either place hides a reversal, also between an upward and a
    downward one. *)
Theorem reversal_is_two_adjacent_opposite_records
    (self : TrendState) (recs : list Rec) (r1 r2 : Rec) :
  let after := update_trends self (recs ++ [r1; r2]) in
  (reversed_trend after = true <->
   (((sma20 r1 < ema20 r1 /\ ema20 r1 < ema9 r1) /\
     (ema20 r2 < sma20 r2 /\ ema9 r2 < ema20 r2)) \/
    ((ema20 r1 < sma20 r1 /\ ema9 r1 < ema20 r1) /\
     (sma20 r2 < ema20 r2 /\ ema20 r2 < ema9 r2)))%Q) /\
  (trend_of r1 = None \/ trend_of r2 = None -> reversed_trend after = false) /\
  trend after = trend_of r2 /\ previous_trend after = trend_of r1.
Proof.
  cbv zeta. unfold update_trends. rewrite fold_left_app. cbn [fold_left].
  set (s := fold_left update_trend_from_record recs self).
  unfold update_trend_from_record.
  pose proof (reversed_after_two s (trend_of r1) (trend_of r2)) as R.
  rewrite !trend_of_up_iff, !trend_of_down_iff in R.
  split; [exact R|]. split; [|split; reflexivity].
  intros H.
  destruct (reversed_trend (set_trend (set_trend s (trend_of r1)) (trend_of r2)))
    eqn:E; [|reflexivity].
  exfalso. apply (proj1 (reversed_after_two s (trend_of r1) (trend_of r2))) in E.
  destruct H as [H|H], E as [[E1 E2]|[E1 E2]]; congruence.
Qed.

Lemma mem_true_iff (tag : string) (tags : list string) :
  mem tag tags = true <-> In tag tags.
Proof.
  induction tags as [|t rest IH]; cbn.
  - split; [discriminate|tauto].
  - rewrite orb_true_iff, IH, String.eqb_eq. tauto.
Qed.

Lemma mem_app_one (tag t : string) (tags : list string) :
  mem tag (tags ++ [t]) = mem tag tags || String.eqb t tag.
Proof.
  induction tags as [|u rest IH]; cbn.
  - apply orb_false_r.
  - rewrite IH. apply orb_assoc.
Qed.

Lemma remove_first_incl (tag u : string) (tags : list string) :
  In u (remove_first tag tags) -> In u tags.
Proof.
  induction tags as [|t rest IH]; cbn; [tauto|].
  destruct (String.eqb t tag); cbn; tauto.
Qed.

Lemma remove_first_NoDup (tag : string) (tags : list string) :
  NoDup tags -> NoDup (remove_first tag tags).
Proof.
  induction 1 as [|t rest Hnin Hnd IH]; cbn; [constructor|].
  destruct (String.eqb t tag); [exact Hnd|].
  constructor; [|exact IH].
  intros Hin. apply Hnin. exact (remove_first_incl _ _ _ Hin).
Qed.

Lemma mem_remove_first (tag u : string) (tags : list string) :
  NoDup tags ->
  mem u (remove_first tag tags) =
  if String.eqb tag u then false else mem u tags.
Proof.
  induction 1 as [|t rest Hnin Hnd IH]; cbn.
  - destruct (String.eqb tag u); reflexivity.
  - destruct (String.eqb_spec t tag) as [->|Hne].
    + destruct (String.eqb_spec tag u) as [<-|Hne']; [|reflexivity].
      destruct (mem tag rest) eqn:M; [|reflexivity].
      exfalso. apply Hnin, mem_true_iff, M.
    + cbn. rewrite IH.
      destruct (String.eqb_spec tag u) as [<-|Hne']; [|reflexivity].
      destruct (String.eqb_spec t tag) as [E|_]; [contradiction|reflexivity].
Qed.

Lemma apply_op_present (tags : list string) (op : TagOp) :
  NoDup tags ->
  exists tags',
    apply_op (Some tags) op = Returned (Some tags') /\
    NoDup tags' /\
    forall u,
      mem u tags' =
      match op with
      | Add t => if String.eqb t u then true else mem u tags
      | Remove t => if String.eqb t u then false else mem u tags
      end.
Proof.
  intros Hnd. destruct op as [t|t]; cbn [apply_op add_tag remove_tag];
    eexists; (split; [reflexivity|]).
  - destruct (mem t tags) eqn:M; cbn [negb].
    + split; [exact Hnd|]. intros u.
      destruct (String.eqb_spec t u) as [<-|_]; [exact M|reflexivity].
    + split.
      * apply NoDup_app; [exact Hnd| |].
        -- constructor; [intros []|constructor].
        -- intros x Hin [<-|[]]. apply mem_true_iff in Hin. congruence.
      * intros u. rewrite mem_app_one.
        destruct (String.eqb t u); [apply orb_true_r|apply orb_false_r].
  - destruct (mem t tags) eqn:M.
    + split; [apply remove_first_NoDup, Hnd|].
      intros u. apply mem_remove_first, Hnd.
    + split; [exact Hnd|]. intros u.
      destruct (String.eqb_spec t u) as [<-|_]; [exact M|reflexivity].
Qed.

Lemma apply_ops_present (ops : list TagOp) :
  forall tags,
    NoDup tags ->
    exists tags',
      apply_ops (Some tags) ops = Returned (Some tags') /\
      NoDup tags' /\
      forall u, mem u tags' = tagged_after ops u (mem u tags).
Proof.
  induction ops as [|op ops IH]; intros tags Hnd.
  - exists tags. repeat split. exact Hnd.
  - destruct (apply_op_present tags op Hnd) as (t1 & E1 & N1 & M1).
    destruct (IH t1 N1) as (t2 & E2 & N2 & M2).
    exists t2. cbn [apply_ops]. rewrite E1.
    split; [exact E2|]. split; [exact N2|].
    intros u. rewrite M2, M1. unfold tagged_after. cbn [fold_left].
    destruct op; reflexivity.
Qed.

(** X16.  [add_tag] and [remove_tag] need a [tags] attribute that the
    constructor never makes: on a [Stock] fresh from [Stock(symbol)] each of
    the two raises [AttributeError], so every run of calls ends at its first
    call.  Once a list without a duplicate has been assigned to [tags], the
    two never raise and keep the tags a set: every run leaves a list without
    a duplicate, and a tag is present afterwards exactly when the last call
    that named it was [add_tag] (or none named it and it was present
    before). *)
Theorem tags_raise_until_assigned_then_a_set (ops : list TagOp) :
  (forall tag,
     add_tag Stock_init_tags tag = AttributeError /\
     remove_tag Stock_init_tags tag = AttributeError) /\
  (ops <> [] -> apply_ops Stock_init_tags ops = AttributeError) /\
  (forall tags,
     NoDup tags ->
     exists tags',
       apply_ops (Some tags) ops = Returned (Some tags') /\
       NoDup tags' /\
       forall tag, mem tag tags' = tagged_after ops tag (mem tag tags)).
Proof.
  split; [split; reflexivity|]. split.
  - destruct ops as [|[t|t] rest]; [intros H; contradiction| |]; reflexivity.
  - intros tags Hnd. exact (apply_ops_present ops tags Hnd).
Qed.

Lemma tags_raise_until_assigned_then_a_set_witness :
  apply_ops Stock_init_tags [Add "gap"] = AttributeError /\
  apply_ops (Some [])
    [Add "gap"; Add "earnings"; Add "gap"; Remove "gap"] =
  Returned (Some ["earnings"]).
Proof.
  destruct (tags_raise_until_assigned_then_a_set [Add "gap"]) as (_ & R & _).
  split; [apply R; discriminate|].
  destruct (tags_raise_until_assigned_then_a_set
              [Add "gap"; Add "earnings"; Add "gap"; Remove "gap"])
    as (_ & _ & S).
  destruct (S [] (NoDup_nil _)) as (tags' & E & _ & _).
  rewrite E. vm_compute in E. injection E as <-. reflexivity.
Defined.

End Stocks.

(** * price_alerts.py: the loop that feeds the indicators *)

Module PriceAlerts.

Import Indicators.

(** The four [update] calls [stream_indicator_updates] makes with one
    record. *)
Definition push (ind : Indicator) (rec : StreamTrader.AlertRec) : Indicator :=
  mkIndicator
    (update (price ind) (StreamTrader.price rec) (StreamTrader.ts rec))
    (update (sma20 ind) (StreamTrader.sma20 rec) (StreamTrader.ts rec))
    (update (ema20 ind) (StreamTrader.ema20 rec) (StreamTrader.ts rec))
    (update (ema9 ind) (StreamTrader.ema9 rec) (StreamTrader.ts rec)).

(** The state of [stream_indicator_updates]: its two dicts and the calls of
    [on_update] made so far, oldest first, each with the indicator as it was
    when the call was made. *)
Record Stream : Type := mkStream {
  indicators_by_symbol : string -> Indicator;
  last_ts_by_symbol    : string -> option Z;
  calls : list (string * Indicator * StreamTrader.AlertRec)
}.

(** [{s.upper(): Indicator() for s in symbols}] and [{}]; the loop reads the
    first dict at the keys it was built from only. *)
Definition stream_init : Stream :=
  mkStream (fun _ => Indicator_init) (fun _ => None) [].

Definition store {A : Type} (d : string -> A) (key : string) (v : A)
  : string -> A :=
  fun k => if String.eqb k key then v else d k.

(** [last_ts_by_symbol.get(sym) == ts_key]; the key is the timestamp printed
    to the second, which a timestamp of second resolution is. *)
Definition same_key (last : option Z) (t : Z) : bool :=
  match last with Some k => (k =? t)%Z | None => false end.

(** One turn of the [for] loop: [sym] is [s.upper()], [rec] what
    [get_indicator_values(sym, date_suffix)] returned. *)
Definition visit (st : Stream) (sym : string)
    (rec : option StreamTrader.AlertRec) : Stream :=
  match rec with
  | None => st
  | Some rec =>
      if same_key (last_ts_by_symbol st sym) (StreamTrader.ts rec) then st
      else
        let ind := push (indicators_by_symbol st sym) rec in
        mkStream (store (indicators_by_symbol st) sym ind)
                 (store (last_ts_by_symbol st) sym (Some (StreamTrader.ts rec)))
                 (calls st ++ [(sym, ind, rec)])
  end.

(** The loop over the turns [visits], oldest first. *)
Definition stream_indicator_updates
    (visits : list (string * option StreamTrader.AlertRec)) : Stream :=
  fold_left (fun st v => visit st (fst v) (snd v)) visits stream_init.

(** The records read for the symbol [s], oldest first. *)
Definition seen (s : string)
    (visits : list (string * option StreamTrader.AlertRec))
  : list StreamTrader.AlertRec :=
  flat_map (fun v => if String.eqb (fst v) s
                     then match snd v with Some r => [r] | None => [] end
                     else []) visits.

(** The records of [recs] whose timestamp differs from that of the record
    before them; [last] is the timestamp before the first one. *)
Fixpoint collapse (last : option Z) (recs : list StreamTrader.AlertRec)
  : list StreamTrader.AlertRec :=
  match recs with
  | [] => []
  | r :: rest =>
      if same_key last (StreamTrader.ts r) then collapse last rest
      else r :: collapse (Some (StreamTrader.ts r)) rest
  end.

(** No two neighbours of [l] are equal. *)
Fixpoint no_repeat (l : list Z) : bool :=
  match l with
  | a :: rest =>
      match rest with
      | b :: _ => negb (a =? b)%Z && no_repeat rest
      | [] => true
      end
  | [] => true
  end.

(** The calls of [on_update] made for the symbol [s]. *)
Definition calls_for (s : string) (st : Stream) : list StreamTrader.AlertRec :=
  map snd (filter (fun c => String.eqb (fst (fst c)) s) (calls st)).

(** At a call of [on_update] the record is the newest point of each of the
    four series. *)
Definition delivered_current
    (c : string * Indicator * StreamTrader.AlertRec) : Prop :=
  let ind := snd (fst c) in
  let rec := snd c in
  current (price ind) = Some (StreamTrader.price rec) /\
  current (sma20 ind) = Some (StreamTrader.sma20 rec) /\
  current (ema20 ind) = Some (StreamTrader.ema20 rec) /\
  current (ema9 ind) = Some (StreamTrader.ema9 rec).

Definition build (kept : list StreamTrader.AlertRec) : Indicator :=
  fold_left push kept Indicator_init.

Definition last_key_from (start : option Z) (kept : list StreamTrader.AlertRec)
  : option Z :=
  match rev kept with
  | [] => start
  | r :: _ => Some (StreamTrader.ts r)
  end.

Definition points (f : StreamTrader.AlertRec -> Q)
    (kept : list StreamTrader.AlertRec) : list (Q * Z) :=
  map (fun r => (f r, StreamTrader.ts r)) kept.

Lemma last_key_from_cons (start : option Z) (a : StreamTrader.AlertRec)
    (kept : list StreamTrader.AlertRec) :
  last_key_from start (a :: kept) =
  last_key_from (Some (StreamTrader.ts a)) kept.
Proof.
  unfold last_key_from. cbn [rev].
  destruct (rev kept); reflexivity.
Qed.

Lemma last_key_from_snoc (start : option Z) (kept : list StreamTrader.AlertRec)
    (r : StreamTrader.AlertRec) :
  last_key_from start (kept ++ [r]) = Some (StreamTrader.ts r).
Proof. unfold last_key_from. rewrite rev_app_distr. reflexivity. Qed.

Lemma collapse_snoc (start : option Z) (l : list StreamTrader.AlertRec)
    (r : StreamTrader.AlertRec) :
  collapse start (l ++ [r]) =
  collapse start l ++
  (if same_key (last_key_from start (collapse start l)) (StreamTrader.ts r)
   then [] else [r]).
Proof.
  revert start. induction l as [|a l IH]; intros start; cbn [app collapse].
  - unfold last_key_from. cbn [rev].
    destruct (same_key start (StreamTrader.ts r)); reflexivity.
  - destruct (same_key start (StreamTrader.ts a)).
    + apply IH.
    + rewrite IH, last_key_from_cons. reflexivity.
Qed.

Lemma no_repeat_tail (a : Z) (l : list Z) :
  no_repeat (a :: l) = true -> no_repeat l = true.
Proof.
  destruct l as [|b l]; [reflexivity|]. cbn [no_repeat].
  intros H. apply andb_true_iff in H. exact (proj2 H).
Qed.

Lemma no_repeat_skipn (n : nat) (l : list Z) :
  no_repeat l = true -> no_repeat (skipn n l) = true.
Proof.
  revert l. induction n as [|n IH]; intros l H; [exact H|].
  destruct l as [|a l]; [reflexivity|]. cbn [skipn].
  apply IH. exact (no_repeat_tail a l H).
Qed.

Lemma collapse_no_repeat (start : option Z) (l : list StreamTrader.AlertRec) :
  no_repeat
    (match start with Some k => [k] | None => [] end ++
     map StreamTrader.ts (collapse start l)) = true.
Proof.
  revert start. induction l as [|r rest IH]; intros start; cbn [collapse].
  - destruct start; reflexivity.
  - destruct (same_key start (StreamTrader.ts r)) eqn:K; [apply IH|].
    specialize (IH (Some (StreamTrader.ts r))). cbn [app map] in *.
    destruct start as [k|]; [|exact IH].
    cbn [app no_repeat same_key] in *. rewrite K. exact IH.
Qed.

Lemma lastn_S_snoc {A : Type} (m : nat) (l : list A) (x : A) :
  lastn (S m) (l ++ [x]) = lastn m l ++ [x].
Proof.
  unfold lastn. rewrite length_app, skipn_app. cbn [length].
  replace (length l + 1 - S m) with (length l - m) by lia.
  replace (length l - m - length l) with 0 by lia. reflexivity.
Qed.

Lemma current_snoc (s : IndicatorSeries) (l : list Q) (x : Q) :
  dq_items (values s) = l ++ [x] -> current s = Some x.
Proof.
  intros E. unfold current. rewrite E.
  destruct (l ++ [x]) eqn:F; [destruct l; discriminate F|]. rewrite <- F.
  rewrite length_app, nth_error_app2 by (cbn [length]; lia).
  cbn [length]. replace (length l + 1 - 1 - length l) with 0 by lia.
  reflexivity.
Qed.

Lemma fold_push_price (kept : list StreamTrader.AlertRec) (ind : Indicator) :
  price (fold_left push kept ind) =
  updates (price ind) (points StreamTrader.price kept).
Proof.
  revert ind. induction kept as [|r kept IH]; intros ind; [reflexivity|].
  cbn [fold_left]. rewrite IH. reflexivity.
Qed.

Lemma fold_push_sma20 (kept : list StreamTrader.AlertRec) (ind : Indicator) :
  sma20 (fold_left push kept ind) =
  updates (sma20 ind) (points StreamTrader.sma20 kept).
Proof.
  revert ind. induction kept as [|r kept IH]; intros ind; [reflexivity|].
  cbn [fold_left]. rewrite IH. reflexivity.
Qed.

Lemma fold_push_ema20 (kept : list StreamTrader.AlertRec) (ind : Indicator) :
  ema20 (fold_left push kept ind) =
  updates (ema20 ind) (points StreamTrader.ema20 kept).
Proof.
  revert ind. induction kept as [|r kept IH]; intros ind; [reflexivity|].
  cbn [fold_left]. rewrite IH. reflexivity.
Qed.

Lemma fold_push_ema9 (kept : list StreamTrader.AlertRec) (ind : Indicator) :
  ema9 (fold_left push kept ind) =
  updates (ema9 ind) (points StreamTrader.ema9 kept).
Proof.
  revert ind. induction kept as [|r kept IH]; intros ind; [reflexivity|].
  cbn [fold_left]. rewrite IH. reflexivity.
Qed.

Lemma points_values (f : StreamTrader.AlertRec -> Q)
    (kept : list StreamTrader.AlertRec) :
  dq_items (values (updates (IndicatorSeries_init 2048) (points f kept))) =
  lastn 200 (map f kept).
Proof.
  rewrite updates_init_values. unfold points. rewrite map_map. reflexivity.
Qed.

Lemma points_timestamps (f : StreamTrader.AlertRec -> Q)
    (kept : list StreamTrader.AlertRec) :
  dq_items (timestamps (updates (IndicatorSeries_init 2048) (points f kept))) =
  lastn 200 (map StreamTrader.ts kept).
Proof.
  rewrite IndicatorFacts.updates_init_timestamps. unfold points.
  rewrite map_map. reflexivity.
Qed.

Lemma points_current (f : StreamTrader.AlertRec -> Q)
    (kept : list StreamTrader.AlertRec) (r : StreamTrader.AlertRec) :
  current (updates (IndicatorSeries_init 2048) (points f (kept ++ [r]))) =
  Some (f r).
Proof.
  apply (current_snoc _ (lastn 199 (map f kept))).
  rewrite points_values, map_app. apply lastn_S_snoc.
Qed.

Lemma build_snoc (kept : list StreamTrader.AlertRec) (r : StreamTrader.AlertRec) :
  build (kept ++ [r]) = push (build kept) r.
Proof. unfold build. rewrite fold_left_app. reflexivity. Qed.

Lemma build_delivered (sym : string) (kept : list StreamTrader.AlertRec)
    (r : StreamTrader.AlertRec) :
  delivered_current (sym, push (build kept) r, r).
Proof.
  rewrite <- build_snoc. unfold delivered_current, build. cbn [fst snd].
  rewrite fold_push_price, fold_push_sma20, fold_push_ema20, fold_push_ema9.
  repeat split; apply points_current.
Qed.

(** What the loop holds for the symbol [s] when [kept] are the records it
    stored for it. *)
Definition holds (st : Stream) (s : string)
    (kept : list StreamTrader.AlertRec) : Prop :=
  indicators_by_symbol st s = build kept /\
  last_ts_by_symbol st s = last_key_from None kept /\
  calls_for s st = kept.

Lemma visit_holds (st : Stream) (sym : string)
    (rec : option StreamTrader.AlertRec) (s : string)
    (kept : list StreamTrader.AlertRec) :
  holds st s kept ->
  holds (visit st sym rec) s
        (kept ++
         if String.eqb sym s
         then match rec with
              | Some r =>
                  if same_key (last_key_from None kept) (StreamTrader.ts r)
                  then [] else [r]
              | None => []
              end
         else []).
Proof.
  intros (Hi & Hl & Hc). unfold visit.
  destruct rec as [r|].
  2:{ destruct (String.eqb sym s); rewrite app_nil_r; repeat split; assumption. }
  destruct (String.eqb_spec sym s) as [->|Hne].
  - rewrite Hl.
    destruct (same_key (last_key_from None kept) (StreamTrader.ts r)).
    + rewrite app_nil_r. repeat split; assumption.
    + unfold holds, calls_for, store. cbn [indicators_by_symbol
        last_ts_by_symbol calls]. rewrite String.eqb_refl.
      rewrite Hi, build_snoc, last_key_from_snoc.
      split; [reflexivity|]. split; [reflexivity|].
      rewrite filter_app, map_app. cbn [filter fst snd map].
      rewrite String.eqb_refl. cbn [map snd].
      unfold calls_for in Hc. rewrite Hc. reflexivity.
  - rewrite app_nil_r.
    destruct (same_key (last_ts_by_symbol st sym) (StreamTrader.ts r));
      [repeat split; assumption|].
    unfold holds, calls_for, store. cbn [indicators_by_symbol
      last_ts_by_symbol calls].
    destruct (String.eqb_spec s sym) as [E|_]; [symmetry in E; contradiction|].
    split; [exact Hi|]. split; [exact Hl|].
    rewrite filter_app, map_app. cbn [filter fst snd].
    destruct (String.eqb_spec sym s) as [E|_]; [contradiction|].
    cbn [map]. rewrite app_nil_r. exact Hc.
Qed.

Lemma seen_snoc (s : string)
    (visits : list (string * option StreamTrader.AlertRec))
    (v : string * option StreamTrader.AlertRec) :
  seen s (visits ++ [v]) =
  seen s visits ++
  (if String.eqb (fst v) s
   then match snd v with Some r => [r] | None => [] end else []).
Proof. unfold seen. rewrite flat_map_app. cbn [flat_map]. rewrite app_nil_r. reflexivity. Qed.

Lemma stream_holds (visits : list (string * option StreamTrader.AlertRec))
    (s : string) :
  holds (stream_indicator_updates visits) s (collapse None (seen s visits)).
Proof.
  induction visits as [|v visits IH] using rev_ind.
  - repeat split.
  - unfold stream_indicator_updates. rewrite fold_left_app. cbn [fold_left].
    fold (stream_indicator_updates visits).
    pose proof (visit_holds _ (fst v) (snd v) s _ IH) as H.
    rewrite seen_snoc.
    destruct (String.eqb (fst v) s).
    + destruct (snd v) as [r|].
      * rewrite collapse_snoc. exact H.
      * rewrite app_nil_r in *. exact H.
    + rewrite app_nil_r in *. exact H.
Qed.

Lemma stream_delivered (visits : list (string * option StreamTrader.AlertRec)) :
  Forall delivered_current (calls (stream_indicator_updates visits)).
Proof.
  induction visits as [|v visits IH] using rev_ind; [constructor|].
  unfold stream_indicator_updates. rewrite fold_left_app. cbn [fold_left].
  fold (stream_indicator_updates visits).
  unfold visit. destruct (snd v) as [r|]; [|exact IH].
  destruct (same_key _ _); [exact IH|]. cbn [calls].
  apply Forall_app. split; [exact IH|].
  constructor; [|constructor].
  destruct (stream_holds visits (fst v)) as (Hi & _). rewrite Hi.
  apply build_delivered.
Qed.

(** X17.  [stream_indicator_updates] stores a record for a symbol exactly
    when its timestamp differs from that of the record stored last for that
    symbol: after any turns of the loop the four series of a symbol hold, in
    lock-step and oldest first, the last 200 of the records read for it
    whose timestamp differs from the one before (a record with an older
    timestamp is stored, a changed record with the same timestamp is not);
    no two neighbouring stored timestamps are equal; [on_update] was called
    once for each stored record, in order, and at each call the record was
    the newest point of the indicator handed over. *)
Theorem stream_stores_each_new_tick_once
    (visits : list (string * option StreamTrader.AlertRec)) (s : string) :
  let st := stream_indicator_updates visits in
  let ind := indicators_by_symbol st s in
  let kept := collapse None (seen s visits) in
  dq_items (values (price ind)) = lastn 200 (map StreamTrader.price kept) /\
  dq_items (values (sma20 ind)) = lastn 200 (map StreamTrader.sma20 kept) /\
  dq_items (values (ema20 ind)) = lastn 200 (map StreamTrader.ema20 kept) /\
  dq_items (values (ema9 ind)) = lastn 200 (map StreamTrader.ema9 kept) /\
  (forall series, In series [price; sma20; ema20; ema9] ->
     dq_items (timestamps (series ind)) =
     lastn 200 (map StreamTrader.ts kept)) /\
  no_repeat (dq_items (timestamps (price ind))) = true /\
  calls_for s st = kept /\
  Forall delivered_current (calls st).
Proof.
  cbv zeta. destruct (stream_holds visits s) as (Hi & _ & Hc).
  rewrite Hi. unfold build.
  rewrite fold_push_price, fold_push_sma20, fold_push_ema20, fold_push_ema9.
  rewrite !points_values.
  do 4 (split; [reflexivity|]).
  split.
  { intros series [<-|[<-|[<-|[<-|[]]]]].
    - rewrite fold_push_price. apply points_timestamps.
    - rewrite fold_push_sma20. apply points_timestamps.
    - rewrite fold_push_ema20. apply points_timestamps.
    - rewrite fold_push_ema9. apply points_timestamps. }
  split.
  { rewrite points_timestamps. unfold lastn. apply no_repeat_skipn.
    exact (collapse_no_repeat None (seen s visits)). }
  split; [exact Hc|apply stream_delivered].
Qed.

End PriceAlerts.
